(** * A shallow embedding of the Merkle file-change detector

    The development follows [pkg/merkle/client.go]: digests and the
    hash function, the tree builder, the flat snapshot, the differ and
    the CSV persistence of snapshots.  Names are those of the Go
    source. *)

From Stdlib Require Import ZArith Lia List Strings.Byte Ascii String.
From Stdlib Require Import Sorting.Sorted.
From stdpp Require Import gmap strings list fin_maps sorting.
From Equations Require Import Equations.

Import ListNotations.
Local Open Scope Z_scope.
Local Open Scope list_scope.

(** ** Byte slices

    A Go [[]byte] is a [list byte].  No operation of the package
    applied to a digest held in a node or in a map tells a nil slice
    from an empty one ([len], [range], [append], [hex.EncodeToString]);
    the two fields where nil matters ([TreeState.RootHash], tested with
    [== nil], and the unset digest of a [FileChange]) are options. *)

Abbreviation bytes := (list byte).

Definition byte_of_Z (z : Z) : byte :=
  match Byte.of_N (Z.to_N (z mod 256)) with
  | Some b => b
  | None => x00
  end.

Definition Z_of_byte (b : byte) : Z := Z.of_N (Byte.to_N b).

#[global] Instance byte_eq_dec : EqDecision byte.
Proof.
  intros a b. destruct (Byte.eqb a b) eqn:E.
  - left. apply Byte.byte_dec_bl. exact E.
  - right. intros ->. rewrite (Byte.byte_dec_lb eq_refl) in E. discriminate.
Defined.

(** A Go string is a sequence of bytes; so is a Rocq [string]. *)
Definition byte_of_ascii (a : ascii) : byte := byte_of_Z (Z.of_nat (nat_of_ascii a)).

Fixpoint bytes_of_string (s : string) : bytes :=
  match s with
  | EmptyString => []
  | String a s' => byte_of_ascii a :: bytes_of_string s'
  end.

(** ** The hasher: SHA-256 (FIPS 180-4), as [crypto/sha256] computes it *)

Module SHA256.

Definition w32 (x : Z) : Z := x mod 2 ^ 32.
Definition add32 (x y : Z) : Z := w32 (x + y).
Definition rotr (n x : Z) : Z :=
  w32 (Z.lor (Z.shiftr x n) (Z.shiftl x (32 - n))).
Definition not32 (x : Z) : Z := Z.lxor x 0xFFFFFFFF.

Definition Ch (x y z : Z) : Z := Z.lxor (Z.land x y) (Z.land (not32 x) z).
Definition Maj (x y z : Z) : Z :=
  Z.lxor (Z.lxor (Z.land x y) (Z.land x z)) (Z.land y z).
Definition Sigma0 (x : Z) : Z := Z.lxor (Z.lxor (rotr 2 x) (rotr 13 x)) (rotr 22 x).
Definition Sigma1 (x : Z) : Z := Z.lxor (Z.lxor (rotr 6 x) (rotr 11 x)) (rotr 25 x).
Definition sigma0 (x : Z) : Z := Z.lxor (Z.lxor (rotr 7 x) (rotr 18 x)) (Z.shiftr x 3).
Definition sigma1 (x : Z) : Z := Z.lxor (Z.lxor (rotr 17 x) (rotr 19 x)) (Z.shiftr x 10).

(** The round constants are the first 32 bits of the fractional parts
    of the cube roots of the first 64 primes, the initial hash value
    those of the square roots of the first 8. *)
Definition is_prime (n : Z) : bool :=
  (1 <? n) && forallb (fun d => negb (n mod Z.of_nat d =? 0)) (seq 2 (Z.to_nat n - 2)).

Definition primes : list Z :=
  Eval vm_compute in filter (fun n => is_prime n = true) (map Z.of_nat (seq 2 310)).

Fixpoint cube_root (bit : nat) (n acc : Z) : Z :=
  match bit with
  | O => acc
  | S b =>
      let c := acc + 2 ^ Z.of_nat b in
      if c * c * c <=? n then cube_root b n c else cube_root b n acc
  end.

Definition K : list Z :=
  Eval vm_compute in map (fun p => w32 (cube_root 40 (p * 2 ^ 96) 0)) primes.

Definition H0 : list Z :=
  Eval vm_compute in map (fun p => w32 (Z.sqrt (p * 2 ^ 64))) (firstn 8 primes).

(** Padding: a 1 bit, zeros up to 56 mod 64 bytes, the bit length on
    eight bytes, big endian. *)
Definition be_bytes (width : nat) (x : Z) : bytes :=
  map (fun i => byte_of_Z (Z.shiftr x (8 * Z.of_nat i))) (rev (seq 0 width)).

Definition pad (msg : bytes) : bytes :=
  let len := Z.of_nat (length msg) in
  let zeros := Z.to_nat ((55 - len) mod 64) in
  msg ++ [x80] ++ repeat x00 zeros ++ be_bytes 8 (8 * len).

Fixpoint be_words (bs : bytes) : list Z :=
  match bs with
  | a :: b :: c :: d :: rest =>
      (Z_of_byte a * 2 ^ 24 + Z_of_byte b * 2 ^ 16 + Z_of_byte c * 2 ^ 8 + Z_of_byte d)
        :: be_words rest
  | _ => []
  end.

(** The message schedule, kept most recent word first. *)
Definition next_w (rw : list Z) : Z :=
  add32 (add32 (sigma1 (nth 1 rw 0)) (nth 6 rw 0))
        (add32 (sigma0 (nth 14 rw 0)) (nth 15 rw 0)).

Fixpoint extend (n : nat) (rw : list Z) : list Z :=
  match n with
  | O => rw
  | S n' => extend n' (next_w rw :: rw)
  end.

Definition schedule (block : list Z) : list Z := rev (extend 48 (rev block)).

Record regs := Regs { ra : Z; rb : Z; rc : Z; rd : Z; re : Z; rf : Z; rg : Z; rh : Z }.

Definition round (s : regs) (kw : Z * Z) : regs :=
  let t1 := add32 (add32 (add32 (rh s) (Sigma1 (re s))) (Ch (re s) (rf s) (rg s)))
                  (add32 (fst kw) (snd kw)) in
  let t2 := add32 (Sigma0 (ra s)) (Maj (ra s) (rb s) (rc s)) in
  Regs (add32 t1 t2) (ra s) (rb s) (rc s) (add32 (rd s) t1) (re s) (rf s) (rg s).

Definition regs_of (h : list Z) : regs :=
  Regs (nth 0 h 0) (nth 1 h 0) (nth 2 h 0) (nth 3 h 0)
       (nth 4 h 0) (nth 5 h 0) (nth 6 h 0) (nth 7 h 0).

Definition compress (h : list Z) (block : list Z) : list Z :=
  let s := fold_left round (combine K (schedule block)) (regs_of h) in
  [ add32 (nth 0 h 0) (ra s); add32 (nth 1 h 0) (rb s);
    add32 (nth 2 h 0) (rc s); add32 (nth 3 h 0) (rd s);
    add32 (nth 4 h 0) (re s); add32 (nth 5 h 0) (rf s);
    add32 (nth 6 h 0) (rg s); add32 (nth 7 h 0) (rh s) ].

Fixpoint blocks (fuel : nat) (h : list Z) (ws : list Z) : list Z :=
  match fuel with
  | O => h
  | S fuel' =>
      match ws with
      | [] => h
      | _ => blocks fuel' (compress h (firstn 16 ws)) (skipn 16 ws)
      end
  end.

Definition Sum256 (data : bytes) : bytes :=
  let ws := be_words (pad data) in
  concat (map (be_bytes 4) (blocks (length ws) H0 ws)).

End SHA256.

(** [hashData]: [sha256.Sum256(data)] as a slice. *)
Definition hashData (data : bytes) : bytes := SHA256.Sum256 data.

(** ** [encoding/hex] *)

Definition hextable : list ascii :=
  list_ascii_of_string "0123456789abcdef".

Definition hexdigit (n : Z) : ascii := nth (Z.to_nat n) hextable "0"%char.

(** [hex.EncodeToString]: two lower-case digits per byte. *)
Fixpoint EncodeToString (src : bytes) : string :=
  match src with
  | [] => EmptyString
  | b :: rest =>
      String (hexdigit (Z.shiftr (Z_of_byte b) 4))
        (String (hexdigit (Z.land (Z_of_byte b) 15)) (EncodeToString rest))
  end.


Definition fromHexChar (c : ascii) : option Z :=
  let n := Z.of_nat (nat_of_ascii c) in
  if (48 <=? n) && (n <=? 57) then Some (n - 48)
  else if (97 <=? n) && (n <=? 102) then Some (n - 97 + 10)
  else if (65 <=? n) && (n <=? 70) then Some (n - 65 + 10)
  else None.

Inductive hexError :=
| InvalidByteError (c : ascii)
| ErrLength.

(** [hex.DecodeString]: the bytes decoded before the first error,
    and the error.  An odd length is reported after the last full
    pair, and an invalid character before a bad length. *)
Fixpoint DecodeString (s : string) : bytes * option hexError :=
  match s with
  | EmptyString => ([], None)
  | String p EmptyString =>
      match fromHexChar p with
      | None => ([], Some (InvalidByteError p))
      | Some _ => ([], Some ErrLength)
      end
  | String p (String q rest) =>
      match fromHexChar p, fromHexChar q with
      | None, _ => ([], Some (InvalidByteError p))
      | Some _, None => ([], Some (InvalidByteError q))
      | Some a, Some b =>
          let '(bs, e) := DecodeString rest in
          (byte_of_Z (Z.lor (Z.shiftl a 4) b) :: bs, e)
      end
  end.

(** The bytes of a slice that may be nil. *)
Definition bytesOf (h : option bytes) : bytes := default [] h.

(** ** Errors and results

    A Go function returning [(T, error)] returns a [result T]; [Panic]
    is a run-time panic (index out of range, nil dereference). *)

Inductive error :=
| ErrNoFiles                                (* "no files found in folder" *)
| ErrInvalidHeader                          (* "invalid CSV header" *)
| ErrNoPreviousState (folderName : string)  (* "no previous state found for folder: %s" *)
| ErrOS (msg : string)                      (* an error of os or path/filepath *)
| ErrCSV (msg : string)                     (* a parse error of encoding/csv *)
| ErrFieldCount                             (* csv.ErrFieldCount *)
| EOF.                                      (* io.EOF *)

Inductive result (A : Type) :=
| Ok (a : A)
| Err (e : error)
| Panic.
Arguments Ok {A} a.
Arguments Err {A} e.
Arguments Panic {A}.

#[global] Instance result_bind : MBind result := fun A B k r =>
  match r with
  | Ok a => k a
  | Err e => Err e
  | Panic => Panic
  end.

#[global] Instance result_ret : MRet result := fun A a => Ok a.

(** ** The data model *)

Inductive ChangeType := Modified | Added | Deleted.

(** [MerkleNode]: the children are pointers and may be nil. *)
#[warnings="-register-all"]
Inductive MerkleNode : Type := mkMerkleNode {
  Hash : bytes;
  Left : option MerkleNode;
  Right : option MerkleNode;
  IsLeaf : bool;
  FileName : string
}.

Record MerkleTree := mkMerkleTree { Root : option MerkleNode }.

Module FileChange.
Record t := mk {
  FileName : string;
  ChangeType : ChangeType;
  OldHash : option bytes;
  NewHash : option bytes
}.
End FileChange.

Record MerkleClient := mkClient { storageDir : string }.

Definition NewClient (storageDir : string) : MerkleClient := mkClient storageDir.

(** ** The environment: library packages the client calls *)

(** [sort.Slice] and [sort.Strings]: the slice sorted by [less]. *)
Class Sorter := sortSlice : forall A : Type, (A -> A -> bool) -> list A -> list A.
Arguments sortSlice {_ A} less l.

(** [less] as the [sort] package wants it: a strict weak ordering. *)
Record StrictWeak {A} (less : A -> A -> bool) : Prop := {
  sw_irrefl : forall x, less x x = false;
  sw_trans : forall x y z, less x y = true -> less y z = true -> less x z = true;
  sw_negtrans : forall x y z, less x y = false -> less y z = false -> less x z = false
}.

(** What the [sort] package promises: the same elements, and no
    element less than one before it.  The sort need not be stable. *)
Class SorterSpec (S : Sorter) : Prop := {
  sortSlice_perm : forall A (less : A -> A -> bool) l, sortSlice less l ≡ₚ l;
  sortSlice_sorted : forall A (less : A -> A -> bool) l,
    StrictWeak less ->
    StronglySorted (fun x y => less y x = false) (sortSlice less l)
}.

(** The insertion sort that [sort.Slice] runs on a slice of at most
    twelve elements: each element moves left while it is less than its
    left neighbour.  The sorted prefix is kept last element first. *)
Fixpoint insertLeft {A} (less : A -> A -> bool) (x : A) (rprefix : list A) : list A :=
  match rprefix with
  | [] => [x]
  | y :: r => if less x y then y :: insertLeft less x r else x :: y :: r
  end.

Definition insertionSort : Sorter :=
  fun A less l => rev (fold_left (fun acc x => insertLeft less x acc) l []).

(** ** Tree builder *)

Definition leafNode (relPath : string) (fileHash : bytes) : MerkleNode :=
  {| Hash := fileHash; Left := None; Right := None; IsLeaf := true; FileName := relPath |}.

(** The parent of a pair.  [append(left.Hash, right.Hash...)] copies:
    a SHA-256 digest has capacity 32, its length. *)
Definition parentNode (left right : MerkleNode) : MerkleNode :=
  let combinedHash := Hash left ++ Hash right in
  let parentHash := hashData combinedHash in
  {| Hash := parentHash; Left := Some left; Right := Some right;
     IsLeaf := false; FileName := EmptyString |}.

(** One pass of the loop [for i := 0; i < len(nodes); i += 2]. *)
Fixpoint nextLevel (nodes : list MerkleNode) : list MerkleNode :=
  match nodes with
  | [] => []
  | [nl] => [parentNode nl nl]
  | nl :: nr :: rest => parentNode nl nr :: nextLevel rest
  end.

Equations? buildMerkleTree (nodes : list MerkleNode) : option MerkleNode
  by wf (length nodes) lt :=
  buildMerkleTree [] := None;
  buildMerkleTree [node] := Some node;
  buildMerkleTree (nl :: nr :: rest) :=
    buildMerkleTree (nextLevel (nl :: nr :: rest)).
Proof.
  assert (Hle : forall l : list MerkleNode, (length (nextLevel l) <= length l)%nat).
  { fix IH 1. intros [|a [|b l]]; cbn [nextLevel length]; [lia..|].
    specialize (IH l). lia. }
  cbn [nextLevel length]. specialize (Hle rest). lia.
Qed.

(** ** Directory traversal

    What [filepath.Walk] hands to the callback, entry by entry: an
    error, a directory, or a regular file with its path relative to the
    folder and what reading it gives. *)
Inductive WalkEntry :=
| WalkErr (e : error)
| WalkDir
| WalkFile (relPath : string) (content : result bytes).

(** [hashFile]: the SHA-256 of the whole content, or the read error. *)
Definition hashFile (content : result bytes) : result bytes :=
  data ← content; Ok (SHA256.Sum256 data).

(** The callback of [createMerkleTreeFromFolder], run over the walk;
    the first error stops the walk and is returned. *)
Fixpoint walkFolder (entries : list WalkEntry) (leafNodes : list MerkleNode)
  : result (list MerkleNode) :=
  match entries with
  | [] => Ok leafNodes
  | WalkErr e :: _ => Err e
  | WalkDir :: rest => walkFolder rest leafNodes
  | WalkFile relPath content :: rest =>
      fileHash ← hashFile content;
      walkFolder rest (leafNodes ++ [leafNode relPath fileHash])
  end.

Definition lessFileName (a b : MerkleNode) : bool :=
  String.ltb (FileName a) (FileName b).

(** [createMerkleTreeFromFolder] after the walk: the empty check, the
    sort by path and the reduction. *)
Definition treeFromLeaves `{S : Sorter} (leafNodes : list MerkleNode) : result MerkleTree :=
  if (length leafNodes =? 0)%nat then Err ErrNoFiles
  else
    let sorted := sortSlice lessFileName leafNodes in
    let root := buildMerkleTree sorted in
    Ok {| Root := root |}.

Definition createMerkleTreeFromFolder `{S : Sorter} (folder : list WalkEntry)
  : result MerkleTree :=
  leafNodes ← walkFolder folder [];
  treeFromLeaves leafNodes.

Definition GetTree `{S : Sorter} (folder : list WalkEntry) : result MerkleTree :=
  createMerkleTreeFromFolder folder.

(** ** Snapshot model *)

Fixpoint collectNode (node : MerkleNode) (fileHashes : gmap string bytes)
  : gmap string bytes :=
  match node with
  | mkMerkleNode hash lft rgt isLeaf fileName =>
      if isLeaf then <[fileName := hash]> fileHashes
      else
        let fileHashes :=
          match lft with
          | None => fileHashes
          | Some n => collectNode n fileHashes
          end in
        match rgt with
        | None => fileHashes
        | Some n => collectNode n fileHashes
        end
  end.

(** [collectFileHashes]: the map is updated in place; here it is
    passed and returned. *)
Definition collectFileHashes (node : option MerkleNode) (fileHashes : gmap string bytes)
  : gmap string bytes :=
  match node with
  | None => fileHashes
  | Some n => collectNode n fileHashes
  end.

(** The [time] package: [zeroTime] is [Time{}]; [Parse] gives [None]
    for an error, which comes with [Time{}]. *)
Class TimePkg := {
  Time : Type;
  zeroTime : Time;
  IsZero : Time -> bool;
  Format : Time -> string -> string;
  Parse : string -> string -> option Time
}.

Definition RFC3339 : string := "2006-01-02T15:04:05Z07:00".

Record TreeState `{T : TimePkg} := mkTreeState {
  Timestamp : Time;
  RootHash : option bytes;
  FileHashes : gmap string bytes
}.

Record ChangeReport `{T : TimePkg} := mkChangeReport {
  OldTimestamp : Time;
  NewTimestamp : Time;
  OldRootHash : option bytes;
  NewRootHash : option bytes;
  Changes : list FileChange.t
}.

(** [CreateSnapshot]; [now] is what [time.Now()] returns. *)
Definition CreateSnapshot `{S : Sorter} `{T : TimePkg} (folder : list WalkEntry) (now : Time)
  : result TreeState :=
  tree ← GetTree folder;
  match Root tree with
  | None => Panic
  | Some root =>
      let state := {| Timestamp := now; RootHash := Some (Hash root); FileHashes := ∅ |} in
      Ok {| Timestamp := Timestamp state; RootHash := RootHash state;
            FileHashes := collectFileHashes (Root tree) (FileHashes state) |}
  end.

(** ** Differ *)

Fixpoint eachByteEqual (h1 h2 : bytes) : bool :=
  match h1, h2 with
  | a :: r1, b :: r2 => if decide (a <> b) then false else eachByteEqual r1 r2
  | _, _ => true
  end.

Definition equalHashes (h1 h2 : bytes) : bool :=
  if decide (length h1 <> length h2) then false else eachByteEqual h1 h2.

(** The order in which a [for ... range] statement visits a map is
    not specified; each such statement has its own. *)
Inductive rangeLoop := SaveRows | FindModified | FindAdded | FindDeleted.

Class MapRange := rangeMap : rangeLoop -> gmap string bytes -> list (string * bytes).

Class MapRangeSpec (R : MapRange) : Prop :=
  rangeMap_perm : forall loop m, rangeMap loop m ≡ₚ map_to_list m.

Definition CompareSnapshots `{R : MapRange} `{T : TimePkg} (oldState newState : TreeState)
  : ChangeReport :=
  let changes : list FileChange.t := [] in
  let changes :=
    fold_left (fun changes '(fileName, newHash) =>
      match FileHashes oldState !! fileName with
      | Some oldHash =>
          if negb (equalHashes oldHash newHash)
          then changes ++ [FileChange.mk fileName Modified (Some oldHash) (Some newHash)]
          else changes
      | None => changes
      end) (rangeMap FindModified (FileHashes newState)) changes in
  let changes :=
    fold_left (fun changes '(fileName, hash) =>
      match FileHashes oldState !! fileName with
      | None => changes ++ [FileChange.mk fileName Added None (Some hash)]
      | Some _ => changes
      end) (rangeMap FindAdded (FileHashes newState)) changes in
  let changes :=
    fold_left (fun changes '(fileName, hash) =>
      match FileHashes newState !! fileName with
      | None => changes ++ [FileChange.mk fileName Deleted (Some hash) None]
      | Some _ => changes
      end) (rangeMap FindDeleted (FileHashes oldState)) changes in
  {| OldTimestamp := Timestamp oldState;
     NewTimestamp := Timestamp newState;
     OldRootHash := RootHash oldState;
     NewRootHash := RootHash newState;
     Changes := changes |}.

(** The test [PrintChangeReport] makes first: when it holds, the
    printer writes "No changes detected - root hash is identical" and
    returns without reading [Changes]. *)
Definition rootHashIdentical `{T : TimePkg} (report : ChangeReport) : bool :=
  equalHashes (bytesOf (OldRootHash report)) (bytesOf (NewRootHash report)).

(** ** Persistence

    A stored file is seen through [encoding/csv]: the sequence of
    what its reader returns, line by line, a record or a syntax
    error. *)
Inductive csvLine :=
| csvRecord (fields : list string)
| csvBad (msg : string).

(** The reader drops a carriage return that comes before a line feed,
    inside a quoted field too. *)
Definition startsWithLF (s : string) : bool :=
  match s with
  | String c _ => bool_decide (c = "010"%char)
  | EmptyString => false
  end.

Fixpoint dropCR (s : string) : string :=
  match s with
  | EmptyString => EmptyString
  | String c rest =>
      if bool_decide (c = "013"%char) && startsWithLF rest
      then dropCR rest
      else String c (dropCR rest)
  end.

(** [csv.Writer.Write]: the line, as the reader will return it. *)
Definition Write (record : list string) : csvLine := csvRecord (map dropCR record).

Class OSEnv := {
  MkdirAll : string -> option error;
  Create : string -> option error;
  Glob : gmap string (list csvLine) -> string -> result (list string);
  Base : string -> string
}.

Definition header : list string :=
  ["timestamp"; "root_hash"; "file_path"; "file_hash"]%string.

Definition snapshotFileName `{T : TimePkg} `{O : OSEnv}
  (c : MerkleClient) (state : TreeState) (folderPath : string) : string :=
  (storageDir c ++ "/state_" ++ Base folderPath ++ "_"
     ++ Format (Timestamp state) "20060102_150405" ++ ".csv")%string.

(** [SaveSnapshot]: the file system before, the file system after and
    the error.  Writes to the created file succeed. *)
Definition SaveSnapshot `{R : MapRange} `{T : TimePkg} `{O : OSEnv}
  (c : MerkleClient) (state : TreeState) (folderPath : string)
  (fs : gmap string (list csvLine)) : gmap string (list csvLine) * option error :=
  match MkdirAll (storageDir c) with
  | Some err => (fs, Some err)
  | None =>
      let filename := snapshotFileName c state folderPath in
      match Create filename with
      | Some err => (fs, Some err)
      | None =>
          let timestampStr := Format (Timestamp state) RFC3339 in
          let rootHashStr := EncodeToString (bytesOf (RootHash state)) in
          let rows :=
            map (fun '(fileName, hash) =>
                   [timestampStr; rootHashStr; fileName; EncodeToString hash])
                (rangeMap SaveRows (FileHashes state)) in
          (<[filename := map Write (header :: rows)]> fs, None)
      end
  end.

(** [csv.Reader.Read] on the next line, with [FieldsPerRecord] before
    and after: zero until the first record sets it. *)
Definition Read (fieldsPerRecord : nat) (line : csvLine) : result (list string) * nat :=
  match line with
  | csvBad msg => (Err (ErrCSV msg), fieldsPerRecord)
  | csvRecord fields =>
      if (0 <? fieldsPerRecord)%nat then
        if decide (length fields <> fieldsPerRecord)
        then (Err ErrFieldCount, fieldsPerRecord)
        else (Ok fields, fieldsPerRecord)
      else (Ok fields, length fields)
  end.

Definition index (row : list string) (i : nat) : result string :=
  match row !! i with
  | Some s => Ok s
  | None => Panic
  end.

Fixpoint validateHeader (hdr : list string) (i : nat) (expectedHeader : list string)
  : result unit :=
  match expectedHeader with
  | [] => Ok tt
  | h :: rest =>
      hi ← index hdr i;
      if decide (hi <> h) then Err ErrInvalidHeader
      else validateHeader hdr (S i) rest
  end.

(** One data row: the timestamp while it is zero, the root hash while
    it is nil, the file hash always; decoding and parsing errors are
    dropped. *)
Definition loadRow `{T : TimePkg} (state : TreeState) (row : list string) : result TreeState :=
  timestamp ←
    (if IsZero (Timestamp state)
     then (r0 ← index row 0; Ok (default zeroTime (Parse RFC3339 r0)))
     else Ok (Timestamp state));
  rootHash ←
    (match RootHash state with
     | None => r1 ← index row 1; Ok (Some (fst (DecodeString r1)))
     | Some h => Ok (Some h)
     end);
  r3 ← index row 3;
  let fileHash := fst (DecodeString r3) in
  r2 ← index row 2;
  Ok {| Timestamp := timestamp; RootHash := rootHash;
        FileHashes := <[r2 := fileHash]> (FileHashes state) |}.

Fixpoint loadRows `{T : TimePkg} (fieldsPerRecord : nat) (lines : list csvLine)
  (state : TreeState) : result TreeState :=
  match lines with
  | [] => Ok state
  | line :: rest =>
      match Read fieldsPerRecord line with
      | (Ok row, fieldsPerRecord) =>
          state ← loadRow state row;
          loadRows fieldsPerRecord rest state
      | (Err e, _) => Err e
      | (Panic, _) => Panic
      end
  end.

Definition LoadSnapshot `{T : TimePkg}
  (fs : gmap string (list csvLine)) (filename : string) : result TreeState :=
  match fs !! filename with
  | None => Err (ErrOS "open: no such file or directory")
  | Some [] => Err EOF
  | Some (line :: rest) =>
      match Read 0 line with
      | (Ok hdr, fieldsPerRecord) =>
          _ ← validateHeader hdr 0 header;
          let state := {| Timestamp := zeroTime; RootHash := None; FileHashes := ∅ |} in
          loadRows fieldsPerRecord rest state
      | (Err e, _) => Err e
      | (Panic, _) => Panic
      end
  end.

Definition FindLatestSnapshot `{S : Sorter} `{O : OSEnv}
  (c : MerkleClient) (folderPath : string) (fs : gmap string (list csvLine))
  : result string :=
  let folderName := Base folderPath in
  let pattern := (storageDir c ++ "/state_" ++ folderName ++ "_*.csv")%string in
  files ← Glob fs pattern;
  if (length files =? 0)%nat then Err (ErrNoPreviousState folderName)
  else
    let files := sortSlice String.ltb files in
    index files (length files - 1).

(** ** A concrete environment

    Enough of the library packages to run the client on examples. *)

Definition mapToListRange : MapRange := fun _ m => map_to_list m.

(** A clock: seconds and nanoseconds since 0001-01-01T00:00:00Z, which
    is [Time{}], and the zone offset in seconds. *)
Module Clock.

Record t := mk { sec : Z; nsec : Z; offset : Z }.

Definition zero : t := mk 0 0 0.

Definition isZero (x : t) : bool := (sec x =? 0) && (nsec x =? 0).

(** Days since 0001-01-01 of a date of the proleptic Gregorian
    calendar, and back. *)
Definition daysOfCivil (y m d : Z) : Z :=
  let y := if m <=? 2 then y - 1 else y in
  let era := y / 400 in
  let yoe := y - era * 400 in
  let doy := (153 * (if 2 <? m then m - 3 else m + 9) + 2) / 5 + d - 1 in
  let doe := yoe * 365 + yoe / 4 - yoe / 100 + doy in
  era * 146097 + doe - 306.

Definition civilOfDays (days : Z) : Z * Z * Z :=
  let z := days + 306 in
  let era := z / 146097 in
  let doe := z - era * 146097 in
  let yoe := (doe - doe / 1460 + doe / 36524 - doe / 146096) / 365 in
  let doy := doe - (365 * yoe + yoe / 4 - yoe / 100) in
  let mp := (5 * doy + 2) / 153 in
  let d := doy - (153 * mp + 2) / 5 + 1 in
  let m := if mp <? 10 then mp + 3 else mp - 9 in
  let y := yoe + era * 400 in
  (if m <=? 2 then y + 1 else y, m, d).

Definition digit (n : Z) : ascii := ascii_of_nat (48 + Z.to_nat (n mod 10)).

Fixpoint digits (width : nat) (n : Z) : string :=
  match width with
  | O => EmptyString
  | S w => (digits w (n / 10) ++ String (digit n) EmptyString)%string
  end.

Definition isDigit (c : ascii) : bool :=
  let n := nat_of_ascii c in ((48 <=? n) && (n <=? 57))%nat.

Fixpoint number (acc : Z) (s : string) : option Z :=
  match s with
  | EmptyString => Some acc
  | String c rest =>
      if isDigit c then number (10 * acc + Z.of_nat (nat_of_ascii c) - 48) rest
      else None
  end.

(** A field of exactly [width] digits at the head of [s]. *)
Definition field (width : nat) (s : string) : option (Z * string) :=
  let f := substring 0 width s in
  if decide (String.length f = width)
  then n ← number 0 f; Some (n, substring width (String.length s - width) s)
  else None.

Definition expect (c : ascii) (s : string) : option string :=
  match s with
  | String c' rest => if decide (c = c') then Some rest else None
  | EmptyString => None
  end.

Definition zone (off : Z) : string :=
  if off =? 0 then "Z"%string
  else
    let a := Z.abs off / 60 in
    let sign := if off <? 0 then "-"%char else "+"%char in
    let hh := digits 2 (a / 60) in
    let mm := digits 2 (a mod 60) in
    (String sign hh ++ ":" ++ mm)%string.

Definition format (x : t) (layout : string) : string :=
  let loc := sec x + offset x in
  let '(y, m, d) := civilOfDays (loc / 86400) in
  let s := loc mod 86400 in
  let hh := digits 2 (s / 3600) in
  let mm := digits 2 (s / 60 mod 60) in
  let ss := digits 2 (s mod 60) in
  if decide (layout = RFC3339) then
    (digits 4 y ++ "-" ++ digits 2 m ++ "-" ++ digits 2 d ++ "T"
       ++ hh ++ ":" ++ mm ++ ":" ++ ss ++ zone (offset x))%string
  else if decide (layout = "20060102_150405"%string) then
    (digits 4 y ++ digits 2 m ++ digits 2 d ++ "_" ++ hh ++ mm ++ ss)%string
  else layout.

Definition daysIn (y m : Z) : Z :=
  if m =? 2 then
    if ((y mod 4 =? 0) && negb (y mod 100 =? 0)) || (y mod 400 =? 0) then 29 else 28
  else if (m =? 4) || (m =? 6) || (m =? 9) || (m =? 11) then 30 else 31.

Definition parseZone (s : string) : option Z :=
  if decide (s = "Z"%string) then Some 0
  else
    match s with
    | String sign rest =>
        if bool_decide (sign = "+"%char) || bool_decide (sign = "-"%char) then
          '(h, rest) ← field 2 rest;
          rest ← expect ":" rest;
          '(m, rest) ← field 2 rest;
          if bool_decide (rest = EmptyString) && (h <? 24) && (m <? 60)
          then Some ((if bool_decide (sign = "-"%char) then -1 else 1) * (h * 3600 + m * 60))
          else None
        else None
    | EmptyString => None
    end.

(** [time.Parse(time.RFC3339, s)], whole seconds. *)
Definition parse (layout s : string) : option t :=
  if decide (layout = RFC3339) then
    '(y, s) ← field 4 s; s ← expect "-" s;
    '(m, s) ← field 2 s; s ← expect "-" s;
    '(d, s) ← field 2 s; s ← expect "T" s;
    '(hh, s) ← field 2 s; s ← expect ":" s;
    '(mm, s) ← field 2 s; s ← expect ":" s;
    '(ss, s) ← field 2 s;
    off ← parseZone s;
    if (1 <=? m) && (m <=? 12) && (1 <=? d) && (d <=? daysIn y m)
       && (hh <? 24) && (mm <? 60) && (ss <? 60)
    then Some (mk (daysOfCivil y m d * 86400 + hh * 3600 + mm * 60 + ss - off) 0 off)
    else None
  else None.

End Clock.

Definition clock : TimePkg :=
  {| Time := Clock.t; zeroTime := Clock.zero; IsZero := Clock.isZero;
     Format := Clock.format; Parse := Clock.parse |}.

(** [filepath.Base] on a Unix path. *)
Fixpoint dropSlashes (rpath : list ascii) : list ascii :=
  match rpath with
  | "/"%char :: rest => dropSlashes rest
  | _ => rpath
  end.

Fixpoint lastElement (rpath : list ascii) : list ascii :=
  match rpath with
  | [] => []
  | c :: rest => if decide (c = "/"%char) then [] else c :: lastElement rest
  end.

Definition unixBase (path : string) : string :=
  if decide (path = EmptyString) then "."%string
  else
    let e := rev (lastElement (dropSlashes (rev (list_ascii_of_string path)))) in
    if decide (e = []) then "/"%string else string_of_list_ascii e.

(** A flat store where every directory can be made and every file
    created; [Glob] knows patterns made of a prefix, one star and a
    suffix. *)
Fixpoint splitStar (pattern : string) : option (string * string) :=
  match pattern with
  | EmptyString => None
  | String c rest =>
      if decide (c = "*"%char) then Some (EmptyString, rest)
      else '(pre, post) ← splitStar rest; Some (String c pre, post)
  end.

Definition matchStar (pre post name : string) : bool :=
  let n := String.length name in
  let a := String.length pre in
  let b := String.length post in
  (a + b <=? n)%nat
  && bool_decide (substring 0 a name = pre)
  && bool_decide (substring (n - b) b name = post).

Definition flatStore : OSEnv :=
  {| MkdirAll := fun _ => None;
     Create := fun _ => None;
     Glob := fun fs pattern =>
       match splitStar pattern with
       | Some (pre, post) =>
           Ok (filter (fun name => matchStar pre post name = true) (map fst (map_to_list fs)))
       | None =>
           Ok (filter (fun name => name = pattern) (map fst (map_to_list fs)))
       end;
     Base := unixBase |}.

(** ** Vocabulary of the properties *)

Definition leafOf (entry : string * bytes) : MerkleNode :=
  leafNode (fst entry) (snd entry).

(** A leaf has no child; every other node has two children and the
    digest of their digests, left then right. *)
Fixpoint fullTree (node : MerkleNode) : bool :=
  match node with
  | mkMerkleNode hash lft rgt isLeaf _ =>
      if isLeaf then bool_decide (lft = None) && bool_decide (rgt = None)
      else
        match lft, rgt with
        | Some l, Some r =>
            bool_decide (hash = hashData (Hash l ++ Hash r)) && fullTree l && fullTree r
        | _, _ => false
        end
  end.

(** The leaves under a node, left to right, as [collectNode] meets them. *)
Fixpoint leavesOf (node : MerkleNode) : list (string * bytes) :=
  match node with
  | mkMerkleNode hash lft rgt isLeaf fileName =>
      if isLeaf then [(fileName, hash)]
      else
        match lft with Some l => leavesOf l | None => [] end
          ++ match rgt with Some r => leavesOf r | None => [] end
  end.

(** The leaves under the nodes of a level, left to right. *)
Definition levelLeaves (nodes : list MerkleNode) : list (string * bytes) :=
  flat_map leavesOf nodes.

(** The nodes of a tree, root first. *)
Fixpoint nodesOf (node : MerkleNode) : list MerkleNode :=
  match node with
  | mkMerkleNode _ lft rgt _ _ =>
      node :: match lft with Some l => nodesOf l | None => [] end
           ++ match rgt with Some r => nodesOf r | None => [] end
  end.

Definition rootHashOf (tree : result MerkleTree) : option bytes :=
  match tree with
  | Ok t => Hash <$> Root t
  | _ => None
  end.

(** What each pass of [CompareSnapshots] appends for one map entry. *)
Definition modifiedOf (oldHashes : gmap string bytes) (entry : string * bytes)
  : option FileChange.t :=
  match oldHashes !! fst entry with
  | Some oldHash =>
      if negb (equalHashes oldHash (snd entry))
      then Some (FileChange.mk (fst entry) Modified (Some oldHash) (Some (snd entry)))
      else None
  | None => None
  end.

Definition addedOf (oldHashes : gmap string bytes) (entry : string * bytes)
  : option FileChange.t :=
  match oldHashes !! fst entry with
  | None => Some (FileChange.mk (fst entry) Added None (Some (snd entry)))
  | Some _ => None
  end.

Definition deletedOf (newHashes : gmap string bytes) (entry : string * bytes)
  : option FileChange.t :=
  match newHashes !! fst entry with
  | None => Some (FileChange.mk (fst entry) Deleted (Some (snd entry)) None)
  | Some _ => None
  end.

(** A data line that the reader accepts under a four-column header. *)
Definition wellFormedLine (line : csvLine) : bool :=
  match line with
  | csvRecord row => bool_decide (length row = 4%nat)
  | csvBad _ => false
  end.

(** The depth of every leaf under a node, left to right. *)
Fixpoint leafDepths (node : MerkleNode) : list nat :=
  match node with
  | mkMerkleNode _ lft rgt isLeaf _ =>
      if isLeaf then [0%nat]
      else
        map S (match lft with Some l => leafDepths l | None => [] end
                 ++ match rgt with Some r => leafDepths r | None => [] end)
  end.

(** An entry of the walk that raises no error: a directory or a file
    that can be read. *)
Definition walkable (entry : WalkEntry) : bool :=
  match entry with
  | WalkDir => true
  | WalkFile _ (Ok _) => true
  | _ => false
  end.

Definition isWalkDir (entry : WalkEntry) : bool :=
  match entry with
  | WalkDir => true
  | _ => false
  end.

(** The readable files of a walk, in walk order, with their content. *)
Fixpoint filesOf (folder : list WalkEntry) : list (string * bytes) :=
  match folder with
  | [] => []
  | WalkFile relPath (Ok content) :: rest => (relPath, content) :: filesOf rest
  | _ :: rest => filesOf rest
  end.

(** A file's leaf entry: its path and the digest of its content. *)
Definition digestOf (file : string * bytes) : string * bytes :=
  (fst file, SHA256.Sum256 (snd file)).

(** A change record read in the other direction. *)
Definition swapChange (c : FileChange.t) : FileChange.t :=
  FileChange.mk (FileChange.FileName c)
    match FileChange.ChangeType c with
    | Modified => Modified
    | Added => Deleted
    | Deleted => Added
    end
    (FileChange.NewHash c) (FileChange.OldHash c).

(** A data row of a stored snapshot, column by column. *)
Record storedRow := mkStoredRow {
  rowTimestamp : string;
  rowRootHash : string;
  rowFilePath : string;
  rowFileHash : string
}.

Definition recordOf (row : storedRow) : list string :=
  [rowTimestamp row; rowRootHash row; rowFilePath row; rowFileHash row].

(** * Properties *)

(** ** The hasher and the hex codec *)

Example sha256_abc :
  EncodeToString (hashData (bytes_of_string "abc"))
  = "ba7816bf8f01cfea414140de5dae2223b00361a396177a9cb410ff61f20015ad"%string.
Proof. vm_compute. reflexivity. Qed.

Example sha256_empty :
  EncodeToString (hashData [])
  = "e3b0c44298fc1c149afbf4c8996fb92427ae41e4649b934ca495991b7852b855"%string.
Proof. vm_compute. reflexivity. Qed.



Lemma eachByteEqual_spec (h1 h2 : bytes) :
  length h1 = length h2 -> eachByteEqual h1 h2 = true <-> h1 = h2.
Proof.
  revert h2. induction h1 as [|a h1 IH]; intros [|b h2] Hlen; try discriminate.
  - done.
  - cbn in Hlen. cbn [eachByteEqual]. destruct (decide (a <> b)) as [Hne|Heq].
    + split; [discriminate | congruence].
    + apply dec_stable in Heq. subst b. rewrite IH by lia. split; congruence.
Qed.

(** [equalHashes] is byte-wise equality. *)
Lemma equalHashes_spec (h1 h2 : bytes) : equalHashes h1 h2 = true <-> h1 = h2.
Proof.
  unfold equalHashes. destruct (decide (length h1 <> length h2)) as [Hne|Heq].
  - split; [discriminate | intros ->; done].
  - apply dec_stable in Heq. by apply eachByteEqual_spec.
Qed.

(** ** The order of Go strings *)

Example path_order : String.ltb "a.txt" "a/b.txt" = true /\ String.ltb "a" "a.txt" = true.
Proof. split; reflexivity. Qed.


Lemma ascii_compare_refl (a : ascii) : Ascii.compare a a = Eq.
Proof. apply N.compare_refl. Qed.

Lemma string_compare_refl (s : string) : String.compare s s = Eq.
Proof. induction s as [|a s IH]; [done|]. cbn. by rewrite ascii_compare_refl. Qed.

Lemma string_compare_trans (s1 s2 s3 : string) :
  String.compare s1 s2 = Lt -> String.compare s2 s3 = Lt -> String.compare s1 s3 = Lt.
Proof.
  revert s2 s3. induction s1 as [|a s1 IH]; intros [|b s2] [|c s3]; cbn; try done.
  unfold Ascii.compare.
  destruct (N.compare_spec (N_of_ascii a) (N_of_ascii b)) as [Hab|Hab|Hab]; [| |done];
    destruct (N.compare_spec (N_of_ascii b) (N_of_ascii c)) as [Hbc|Hbc|Hbc]; try done;
    intros H1 H2.
  - rewrite Hab, Hbc, N.compare_refl. eauto.
  - rewrite Hab. by apply N.compare_lt_iff in Hbc as ->.
  - rewrite <-Hbc. by apply N.compare_lt_iff in Hab as ->.
  - assert (N_of_ascii a < N_of_ascii c)%N as Hac by lia.
    by apply N.compare_lt_iff in Hac as ->.
Qed.

Lemma string_ltb_irrefl (s : string) : String.ltb s s = false.
Proof. unfold String.ltb. by rewrite string_compare_refl. Qed.

Lemma string_ltb_trans (s1 s2 s3 : string) :
  String.ltb s1 s2 = true -> String.ltb s2 s3 = true -> String.ltb s1 s3 = true.
Proof.
  unfold String.ltb. intros H1 H2.
  destruct (String.compare s1 s2) eqn:E1; try done.
  destruct (String.compare s2 s3) eqn:E2; try done.
  by rewrite (string_compare_trans _ _ _ E1 E2).
Qed.

Lemma string_ltb_total (s1 s2 : string) :
  String.ltb s1 s2 = false -> String.ltb s2 s1 = false -> s1 = s2.
Proof.
  unfold String.ltb. rewrite (String.compare_antisym s2 s1).
  destruct (String.compare s1 s2) eqn:E; cbn; try done.
  intros _ _. by apply String.compare_eq_iff.
Qed.

Lemma string_ltb_negtrans (s1 s2 s3 : string) :
  String.ltb s1 s2 = false -> String.ltb s2 s3 = false -> String.ltb s1 s3 = false.
Proof.
  intros H12 H23. destruct (String.ltb s1 s3) eqn:H13; [|done].
  destruct (String.ltb s2 s1) eqn:H21.
  - by rewrite (string_ltb_trans _ _ _ H21 H13) in H23.
  - rewrite (string_ltb_total _ _ H12 H21) in H13. congruence.
Qed.

Lemma string_ltb_StrictWeak : StrictWeak String.ltb.
Proof.
  split; eauto using string_ltb_irrefl, string_ltb_trans, string_ltb_negtrans.
Qed.

Lemma lessFileName_StrictWeak : StrictWeak lessFileName.
Proof.
  unfold lessFileName.
  split; eauto using string_ltb_irrefl, string_ltb_trans, string_ltb_negtrans.
Qed.

(** ** The insertion sort keeps the promise of [sort.Slice] *)

Lemma rev_reverse {A} (l : list A) : rev l = reverse l.
Proof. unfold reverse. by rewrite rev_alt. Qed.

Section InsertionSort.
Context {A : Type} (less : A -> A -> bool).

Lemma insertLeft_perm (x : A) (rprefix : list A) :
  insertLeft less x rprefix ≡ₚ x :: rprefix.
Proof.
  induction rprefix as [|y r IH]; [done|]. cbn.
  destruct (less x y); [|done]. rewrite IH. apply Permutation_swap.
Qed.

Lemma insertion_fold_perm (l acc : list A) :
  fold_left (fun acc x => insertLeft less x acc) l acc ≡ₚ l ++ acc.
Proof.
  revert acc. induction l as [|x l IH]; intros acc; [done|].
  cbn. rewrite IH, insertLeft_perm. by rewrite Permutation_middle.
Qed.

Hypothesis Hless : StrictWeak less.

Lemma insertLeft_sorted (x : A) (rprefix : list A) :
  StronglySorted (fun a b => less a b = false) rprefix ->
  StronglySorted (fun a b => less a b = false) (insertLeft less x rprefix).
Proof.
  induction 1 as [|y r Hr IH Hy]; cbn.
  - repeat constructor.
  - destruct (less x y) eqn:Hxy.
    + constructor; [done|].
      rewrite (insertLeft_perm x r). constructor; [|done].
      destruct (less y x) eqn:Hyx; [|done].
      pose proof (sw_trans _ Hless _ _ _ Hxy Hyx) as Hxx.
      by rewrite (sw_irrefl _ Hless) in Hxx.
    + constructor; [by constructor|].
      constructor; [done|].
      eapply Forall_impl; [exact Hy|]. intros b Hyb. cbn in Hyb.
      by apply (sw_negtrans _ Hless x y b).
Qed.

Lemma insertion_fold_sorted (l acc : list A) :
  StronglySorted (fun a b => less a b = false) acc ->
  StronglySorted (fun a b => less a b = false)
    (fold_left (fun acc x => insertLeft less x acc) l acc).
Proof.
  revert acc. induction l as [|x l IH]; intros acc Hacc; [done|].
  cbn. by apply IH, insertLeft_sorted.
Qed.

Lemma StronglySorted_rev (R : A -> A -> Prop) (l : list A) :
  StronglySorted R l -> StronglySorted (fun x y => R y x) (rev l).
Proof.
  induction 1 as [|x l Hl IH Hx]; cbn; [constructor|].
  apply StronglySorted_app; split_and!.
  - intros a b Ha Hb. apply list_elem_of_singleton in Hb as ->.
    rewrite Forall_forall in Hx. apply Hx.
    by rewrite rev_reverse, elem_of_reverse in Ha.
  - exact IH.
  - repeat constructor.
Qed.
End InsertionSort.

Lemma insertionSort_spec : SorterSpec insertionSort.
Proof.
  split.
  - intros A less l. unfold sortSlice, insertionSort.
    rewrite rev_reverse, reverse_Permutation, insertion_fold_perm. by rewrite app_nil_r.
  - intros A less l Hless. unfold sortSlice, insertionSort.
    apply (StronglySorted_rev (fun a b => less a b = false)).
    apply insertion_fold_sorted; [done | constructor].
Qed.

Lemma mapToListRange_spec : MapRangeSpec mapToListRange.
Proof. by intros loop m. Qed.

(** ** Tree builder *)

Lemma list_pair_ind {A} (P : list A -> Prop) :
  P [] -> (forall x, P [x]) -> (forall x y l, P l -> P (x :: y :: l)) ->
  forall l, P l.
Proof.
  intros Hnil Hone Hstep. fix IH 1. intros [|x [|y l]].
  - exact Hnil.
  - apply Hone.
  - apply Hstep, IH.
Qed.

Lemma MerkleNode_children_ind (P : MerkleNode -> Prop) :
  (forall hash lft rgt isLeaf fileName,
      from_option P True lft -> from_option P True rgt ->
      P (mkMerkleNode hash lft rgt isLeaf fileName)) ->
  forall node, P node.
Proof.
  intros Hnode. fix IH 1. intros [hash lft rgt isLeaf fileName].
  apply Hnode.
  - destruct lft as [l|]; [apply IH | exact I].
  - destruct rgt as [r|]; [apply IH | exact I].
Qed.

Lemma nextLevel_length (nodes : list MerkleNode) :
  (length (nextLevel nodes) <= length nodes)%nat.
Proof. induction nodes using list_pair_ind; cbn [nextLevel length]; lia. Qed.

Lemma buildMerkleTree_wf_ind (P : list MerkleNode -> Prop) :
  P [] -> (forall node, P [node]) ->
  (forall nl nr rest, P (nextLevel (nl :: nr :: rest)) -> P (nl :: nr :: rest)) ->
  forall nodes, P nodes.
Proof.
  intros Hnil Hone Hstep nodes.
  induction nodes as [nodes IH] using (induction_ltof1 _ (@length _)).
  destruct nodes as [|nl [|nr rest]]; [done..|].
  apply Hstep, IH. unfold ltof. cbn [nextLevel length].
  pose proof (nextLevel_length rest). lia.
Qed.

Lemma buildMerkleTree_Some (nodes : list MerkleNode) :
  nodes <> [] -> exists root, buildMerkleTree nodes = Some root.
Proof.
  induction nodes as [|node|nl nr rest IH] using buildMerkleTree_wf_ind; intros Hne.
  - done.
  - exists node. by simp buildMerkleTree.
  - simp buildMerkleTree. by apply IH.
Qed.

Lemma fullTree_parentNode (l r : MerkleNode) :
  fullTree l = true -> fullTree r = true -> fullTree (parentNode l r) = true.
Proof.
  intros Hl Hr. cbn. rewrite Hl, Hr. by rewrite bool_decide_eq_true_2.
Qed.

Lemma nextLevel_fullTree (nodes : list MerkleNode) :
  Forall (fun n => fullTree n = true) nodes ->
  Forall (fun n => fullTree n = true) (nextLevel nodes).
Proof.
  induction nodes as [|x|x y l IH] using list_pair_ind; intros H.
  - constructor.
  - inv H. repeat constructor. by apply fullTree_parentNode.
  - inv H. match goal with H : Forall _ (y :: l) |- _ => inv H end.
    cbn [nextLevel]. constructor; [by apply fullTree_parentNode | by apply IH].
Qed.

Lemma buildMerkleTree_fullTree (nodes : list MerkleNode) (root : MerkleNode) :
  Forall (fun n => fullTree n = true) nodes ->
  buildMerkleTree nodes = Some root -> fullTree root = true.
Proof.
  induction nodes as [|node|nl nr rest IH] using buildMerkleTree_wf_ind;
    simp buildMerkleTree; intros Hall Hroot.
  - done.
  - injection Hroot as <-. by inv Hall.
  - apply IH; [|done]. by apply nextLevel_fullTree.
Qed.

Lemma leafOf_fullTree (entries : list (string * bytes)) :
  Forall (fun n => fullTree n = true) (map leafOf entries).
Proof. apply Forall_forall. intros n Hn. apply list_elem_of_fmap in Hn as (e & -> & _). done. Qed.

Lemma nextLevel_odd (nodes : list MerkleNode) (x : MerkleNode) :
  Nat.Even (length nodes) ->
  nextLevel (nodes ++ [x]) = nextLevel nodes ++ [parentNode x x].
Proof.
  induction nodes as [|y|y z l IH] using list_pair_ind; intros Hev.
  - done.
  - destruct Hev as [k Hk]. cbn in Hk. lia.
  - cbn [app nextLevel]. rewrite IH; [done|].
    destruct Hev as [k Hk]. cbn [length] in Hk. exists (k - 1)%nat. lia.
Qed.

Lemma fullTree_children (root : MerkleNode) :
  fullTree root = true -> IsLeaf root = false ->
  exists l r, Left root = Some l /\ Right root = Some r
    /\ Hash root = hashData (Hash l ++ Hash r)
    /\ fullTree l = true /\ fullTree r = true.
Proof.
  destruct root as [hash [l|] [r|] [] fileName]; cbn; try done.
  intros H _. apply andb_prop in H as [H Hr]. apply andb_prop in H as [H Hl].
  apply bool_decide_eq_true in H. by exists l, r.
Qed.

Lemma fullTree_nodesOf (root : MerkleNode) :
  fullTree root = true -> forall n, n ∈ nodesOf root -> fullTree n = true.
Proof.
  induction root as [hash lft rgt isLeaf fileName IHl IHr] using MerkleNode_children_ind.
  intros Hfull n Hn. cbn [nodesOf] in Hn.
  apply elem_of_cons in Hn as [->|Hn]; [done|].
  destruct isLeaf.
  - cbn in Hfull. apply andb_prop in Hfull as [Hl Hr].
    apply bool_decide_eq_true in Hl, Hr. subst lft rgt. by apply elem_of_nil in Hn.
  - destruct (fullTree_children _ Hfull eq_refl) as (l & r & Hl & Hr & _ & Hfl & Hfr).
    cbn in Hl, Hr. subst lft rgt. cbn in IHl, IHr.
    apply elem_of_app in Hn as [Hn|Hn]; eauto.
Qed.

Lemma buildMerkleTree_three (n1 n2 n3 : MerkleNode) :
  buildMerkleTree [n1; n2; n3]
  = Some (parentNode (parentNode n1 n2) (parentNode n3 n3)).
Proof. by simp buildMerkleTree. Qed.

(** C3.  In the tree built from a non-empty leaf list every node that
    is not a leaf has two children, both present, and its digest is the
    SHA-256 of the left digest followed by the right digest.  A level
    of odd length, three nodes or more, is reduced to a level whose
    last node pairs the last node with itself; with three leaves the
    parent of the third has the digest of that leaf's digest
    concatenated with itself. *)
Theorem C3_full_binary_tree (entries : list (string * bytes)) :
  entries <> [] ->
  (exists root,
      buildMerkleTree (map leafOf entries) = Some root
      /\ forall n, n ∈ nodesOf root -> IsLeaf n = false ->
           exists l r, Left n = Some l /\ Right n = Some r
                       /\ Hash n = hashData (Hash l ++ Hash r))
  /\ (forall nodes x, nodes <> [] -> Nat.Even (length nodes) ->
        buildMerkleTree (nodes ++ [x])
        = buildMerkleTree (nextLevel nodes ++ [parentNode x x]))
  /\ (forall e1 e2 e3,
        let leaf3 := leafOf e3 in
        let parent3 := parentNode leaf3 leaf3 in
        buildMerkleTree (map leafOf [e1; e2; e3])
        = Some (parentNode (parentNode (leafOf e1) (leafOf e2)) parent3)
        /\ Left parent3 = Some leaf3 /\ Right parent3 = Some leaf3
        /\ Hash parent3 = hashData (snd e3 ++ snd e3)).
Proof.
  intros Hne. split_and!.
  - destruct (buildMerkleTree_Some (map leafOf entries)) as [root Hroot].
    { by destruct entries. }
    exists root. split; [done|]. intros n Hn Hleaf.
    pose proof (buildMerkleTree_fullTree _ _ (leafOf_fullTree entries) Hroot) as Hfull.
    destruct (fullTree_children n (fullTree_nodesOf _ Hfull _ Hn) Hleaf)
      as (l & r & ? & ? & ? & _).
    by exists l, r.
  - intros nodes x Hnodes Hev. rewrite <-(nextLevel_odd nodes x Hev).
    destruct nodes as [|n1 [|n2 nodes]]; [done| |].
    + destruct Hev as [k Hk]. cbn in Hk. lia.
    + cbn [app]. by simp buildMerkleTree.
  - intros e1 e2 e3. cbn [map]. by rewrite buildMerkleTree_three.
Qed.

Lemma C3_full_binary_tree_witness :
  exists root,
    buildMerkleTree (map leafOf [("a"%string, [x01]); ("b"%string, [x02]); ("c"%string, [x03])])
    = Some root.
Proof.
  destruct (C3_full_binary_tree
              [("a"%string, [x01]); ("b"%string, [x02]); ("c"%string, [x03])])
    as [(root & Hroot & _) _]; [discriminate|].
  exists root. exact Hroot.
Defined.

Lemma sortSlice_singleton `{S : Sorter} {HS : SorterSpec S} {A} (less : A -> A -> bool) (x : A) :
  sortSlice less [x] = [x].
Proof. apply Permutation_singleton_r, sortSlice_perm. Qed.

(** C7.  When the traversal yields exactly one file, the root of the
    built tree is that file's leaf: the root digest is the content
    digest, and nothing is combined. *)
Theorem C7_single_file `{S : Sorter} {HS : SorterSpec S} `{T : TimePkg}
    (folder : list WalkEntry) (relPath : string) (fileHash : bytes) (now : Time) :
  walkFolder folder [] = Ok [leafNode relPath fileHash] ->
  buildMerkleTree [leafNode relPath fileHash] = Some (leafNode relPath fileHash)
  /\ createMerkleTreeFromFolder folder = Ok {| Root := Some (leafNode relPath fileHash) |}
  /\ rootHashOf (GetTree folder) = Some fileHash
  /\ exists state, CreateSnapshot folder now = Ok state /\ RootHash state = Some fileHash.
Proof.
  intros Hwalk.
  assert (createMerkleTreeFromFolder folder
          = Ok {| Root := Some (leafNode relPath fileHash) |}) as Htree.
  { unfold createMerkleTreeFromFolder. rewrite Hwalk. cbn.
    unfold treeFromLeaves. cbn. rewrite sortSlice_singleton. by simp buildMerkleTree. }
  split_and!.
  - by simp buildMerkleTree.
  - done.
  - unfold GetTree. by rewrite Htree.
  - unfold CreateSnapshot, GetTree. rewrite Htree. cbn. eauto.
Qed.

Lemma C7_single_file_witness :
  rootHashOf (GetTree (S := insertionSort)
                [WalkDir; WalkFile "a.txt" (Ok (bytes_of_string "hello"))])
  = Some (SHA256.Sum256 (bytes_of_string "hello")).
Proof.
  refine (proj1 (proj2 (proj2
    (C7_single_file (S := insertionSort) (HS := insertionSort_spec) (T := clock)
       [WalkDir; WalkFile "a.txt" (Ok (bytes_of_string "hello"))]
       "a.txt" (SHA256.Sum256 (bytes_of_string "hello")) Clock.zero _)))).
  reflexivity.
Defined.

Lemma walkFolder_no_files (folder : list WalkEntry) (leafNodes : list MerkleNode) :
  (forall p c, WalkFile p c ∉ folder) ->
  (exists e, WalkErr e ∈ folder /\ walkFolder folder leafNodes = Err e)
  \/ ((forall e, WalkErr e ∉ folder) /\ walkFolder folder leafNodes = Ok leafNodes).
Proof.
  induction folder as [|entry folder IH]; intros Hfiles.
  - right. split; [|done]. intros e He. by apply elem_of_nil in He.
  - destruct entry as [e| |p c].
    + left. exists e. split; [left|done].
    + destruct IH as [(e & He & Hw)|[Hnone Hw]].
      * intros p c Hin. apply (Hfiles p c). by right.
      * left. exists e. split; [by right|done].
      * right. split; [|done]. intros e He.
        apply elem_of_cons in He as [?|He]; [done|]. by apply (Hnone e).
    + exfalso. apply (Hfiles p c). left.
Qed.

(** C6.  When the traversal meets no regular file, building the tree
    returns an error and no tree, and so do [GetTree] and
    [CreateSnapshot]; when the traversal itself raised no error, the
    error is "no files found in folder". *)
Theorem C6_empty_folder_is_error `{S : Sorter} `{T : TimePkg}
    (folder : list WalkEntry) (now : Time) :
  (forall p c, WalkFile p c ∉ folder) ->
  exists e,
    createMerkleTreeFromFolder folder = Err e
    /\ GetTree folder = Err e
    /\ CreateSnapshot folder now = Err e
    /\ ((forall e', WalkErr e' ∉ folder) -> e = ErrNoFiles).
Proof.
  intros Hfiles.
  destruct (walkFolder_no_files folder [] Hfiles) as [(e & He & Hw)|[Hnone Hw]].
  - exists e. unfold CreateSnapshot, GetTree, createMerkleTreeFromFolder.
    rewrite Hw. cbn. split_and!; try done.
    intros Hno. by destruct (Hno e).
  - exists ErrNoFiles. unfold CreateSnapshot, GetTree, createMerkleTreeFromFolder.
    rewrite Hw. by cbn.
Qed.

Lemma C6_empty_folder_is_error_witness :
  CreateSnapshot (S := insertionSort) (T := clock) [WalkDir; WalkDir] Clock.zero
  = Err ErrNoFiles.
Proof.
  destruct (C6_empty_folder_is_error (S := insertionSort) (T := clock)
              [WalkDir; WalkDir] Clock.zero) as (e & _ & _ & Hsnap & He).
  - intros p c Hin. repeat (apply elem_of_cons in Hin as [Hin|Hin]; [discriminate|]).
    by apply elem_of_nil in Hin.
  - rewrite Hsnap. f_equal. apply He.
    intros e' Hin. repeat (apply elem_of_cons in Hin as [Hin|Hin]; [discriminate|]).
    by apply elem_of_nil in Hin.
Defined.

(** A folder of readable files yields their leaves, in walk order. *)
Lemma walkFolder_files (files : list (string * bytes)) (leafNodes : list MerkleNode) :
  walkFolder (map (fun f => WalkFile (fst f) (Ok (snd f))) files) leafNodes
  = Ok (leafNodes ++ map (fun f => leafNode (fst f) (SHA256.Sum256 (snd f))) files).
Proof.
  revert leafNodes. induction files as [|[p c] files IH]; intros leafNodes; cbn.
  - by rewrite app_nil_r.
  - rewrite IH. by rewrite <-app_assoc.
Qed.

(** ** Sort normalisation *)

Lemma NoDup_fst_inj {K V} (l : list (K * V)) (e1 e2 : K * V) :
  NoDup (map fst l) -> e1 ∈ l -> e2 ∈ l -> fst e1 = fst e2 -> e1 = e2.
Proof.
  induction l as [|e l IH]; intros Hnd H1 H2 Hfst.
  - by apply elem_of_nil in H1.
  - cbn in Hnd. apply NoDup_cons in Hnd as [Hnotin Hnd].
    apply elem_of_cons in H1 as [->|H1]; apply elem_of_cons in H2 as [->|H2].
    + done.
    + exfalso. apply Hnotin. rewrite Hfst. by apply (list_elem_of_fmap_2 fst).
    + exfalso. apply Hnotin. rewrite <-Hfst. by apply (list_elem_of_fmap_2 fst).
    + by apply IH.
Qed.

Lemma sortSlice_leaves_unique `{S : Sorter} {HS : SorterSpec S}
    (entries entries' : list (string * bytes)) :
  NoDup (map fst entries) -> entries ≡ₚ entries' ->
  sortSlice lessFileName (map leafOf entries) = sortSlice lessFileName (map leafOf entries').
Proof.
  intros Hnd Hperm.
  apply (StronglySorted_unique_strong (fun x y => lessFileName y x = false)).
  - intros x1 x2 H1 H2 H12 H21.
    rewrite sortSlice_perm in H1. rewrite sortSlice_perm, <-Hperm in H2.
    apply list_elem_of_fmap in H1 as (e1 & -> & H1).
    apply list_elem_of_fmap in H2 as (e2 & -> & H2).
    f_equal. apply (NoDup_fst_inj entries); [done..|].
    unfold lessFileName in H12, H21. cbn in H12, H21.
    by apply string_ltb_total.
  - apply sortSlice_sorted, lessFileName_StrictWeak.
  - apply sortSlice_sorted, lessFileName_StrictWeak.
  - rewrite !sortSlice_perm. by apply fmap_Permutation.
Qed.

Lemma treeFromLeaves_nonempty `{S : Sorter} {HS : SorterSpec S} (leafNodes : list MerkleNode) :
  leafNodes <> [] ->
  exists root,
    treeFromLeaves leafNodes = Ok {| Root := Some root |}
    /\ buildMerkleTree (sortSlice lessFileName leafNodes) = Some root.
Proof.
  intros Hne. unfold treeFromLeaves.
  destruct leafNodes as [|n leafNodes]; [done|]. cbn [length Nat.eqb].
  destruct (buildMerkleTree_Some (sortSlice lessFileName (n :: leafNodes))) as [root Hroot].
  - intros Hnil. pose proof (sortSlice_perm _ lessFileName (n :: leafNodes)) as Hp.
    rewrite Hnil in Hp. by apply Permutation_nil_cons in Hp.
  - exists root. by rewrite Hroot.
Qed.




(** ** Flattening *)

Lemma collectNode_leaves (node : MerkleNode) (m : gmap string bytes) :
  collectNode node m = list_to_map (rev (leavesOf node)) ∪ m.
Proof.
  revert m.
  induction node as [hash lft rgt isLeaf fileName IHl IHr] using MerkleNode_children_ind.
  intros m. cbn [collectNode leavesOf]. destruct isLeaf.
  - cbn. by rewrite insert_union_singleton_l, insert_empty.
  - rewrite rev_app_distr, list_to_map_app, <-(assoc_L (∪)).
    destruct lft as [l|], rgt as [r|]; cbn in IHl, IHr; cbn [rev list_to_map foldr].
    + by rewrite IHr, IHl.
    + by rewrite IHl, (left_id_L ∅ (∪)).
    + by rewrite IHr, (left_id_L ∅ (∪)).
    + by rewrite !(left_id_L ∅ (∪)).
Qed.

Lemma nextLevel_leaves (nodes : list MerkleNode) :
  list_to_map (rev (levelLeaves (nextLevel nodes)))
  =@{gmap string bytes} list_to_map (rev (levelLeaves nodes)).
Proof.
  unfold levelLeaves.
  induction nodes as [|x|x y l IH] using list_pair_ind.
  - done.
  - cbn. rewrite !app_nil_r, rev_app_distr, list_to_map_app. apply (idemp_L (∪)).
  - cbn [nextLevel flat_map]. cbn [parentNode leavesOf].
    rewrite !rev_app_distr, !list_to_map_app, IH.
    by rewrite <-!(assoc_L (∪)).
Qed.

Lemma buildMerkleTree_leaves (nodes : list MerkleNode) (root : MerkleNode) :
  buildMerkleTree nodes = Some root ->
  list_to_map (rev (leavesOf root))
  =@{gmap string bytes} list_to_map (rev (levelLeaves nodes)).
Proof.
  induction nodes as [|node|nl nr rest IH] using buildMerkleTree_wf_ind;
    simp buildMerkleTree; intros Hroot.
  - done.
  - injection Hroot as <-. unfold levelLeaves. cbn. by rewrite app_nil_r.
  - rewrite (IH Hroot). apply nextLevel_leaves.
Qed.

Lemma levelLeaves_leafOf (entries : list (string * bytes)) :
  levelLeaves (map leafOf entries) = entries.
Proof.
  unfold levelLeaves. induction entries as [|[p d] entries IH]; [done|].
  cbn. by rewrite IH.
Qed.

Lemma levelLeaves_perm (nodes nodes' : list MerkleNode) :
  nodes ≡ₚ nodes' -> levelLeaves nodes ≡ₚ levelLeaves nodes'.
Proof. apply Permutation_flat_map. Qed.

(** C4.  When the traversal yields a non-empty list of leaf entries
    with distinct paths, the [FileHashes] of the snapshot that
    [CreateSnapshot] returns holds exactly one entry per path, the
    file's content digest: nothing is lost and the self-paired node of
    an odd level adds nothing. *)
Theorem C4_snapshot_holds_every_leaf `{S : Sorter} {HS : SorterSpec S} `{T : TimePkg}
    (folder : list WalkEntry) (entries : list (string * bytes)) (now : Time) :
  walkFolder folder [] = Ok (map leafOf entries) ->
  entries <> [] -> NoDup (map fst entries) ->
  exists state,
    CreateSnapshot folder now = Ok state
    /\ FileHashes state = list_to_map entries
    /\ (forall path digest, FileHashes state !! path = Some digest <-> (path, digest) ∈ entries)
    /\ size (FileHashes state) = length entries.
Proof.
  intros Hwalk Hne Hnd.
  destruct (treeFromLeaves_nonempty (map leafOf entries)) as (root & Htree & Hroot).
  { by destruct entries. }
  assert (collectNode root ∅ =@{gmap string bytes} list_to_map entries) as Hmap.
  { rewrite collectNode_leaves, (right_id_L ∅ (∪)).
    rewrite (buildMerkleTree_leaves _ _ Hroot).
    symmetry. apply list_to_map_proper; [done|].
    rewrite rev_reverse, reverse_Permutation.
    rewrite (levelLeaves_perm _ _ (sortSlice_perm _ lessFileName (map leafOf entries))).
    by rewrite levelLeaves_leafOf. }
  eexists. split_and!.
  - unfold CreateSnapshot, GetTree, createMerkleTreeFromFolder.
    rewrite Hwalk. cbn. rewrite Htree. cbn. reflexivity.
  - done.
  - cbn [FileHashes]. intros path digest. rewrite Hmap.
    symmetry. by apply elem_of_list_to_map.
  - cbn [FileHashes]. rewrite Hmap. by apply map_size_list_to_map.
Qed.

Lemma C4_snapshot_holds_every_leaf_witness :
  let folder := [WalkDir; WalkFile "b.txt" (Ok (bytes_of_string "world"));
                 WalkFile "a.txt" (Ok (bytes_of_string "hello"));
                 WalkDir; WalkFile "sub/c.txt" (Ok [])] in
  exists state,
    CreateSnapshot (S := insertionSort) (T := clock) folder Clock.zero = Ok state
    /\ size (FileHashes state) = 3%nat.
Proof.
  cbv zeta.
  destruct (C4_snapshot_holds_every_leaf (S := insertionSort) (HS := insertionSort_spec)
              (T := clock)
              [WalkDir; WalkFile "b.txt" (Ok (bytes_of_string "world"));
               WalkFile "a.txt" (Ok (bytes_of_string "hello"));
               WalkDir; WalkFile "sub/c.txt" (Ok [])]
              [("b.txt"%string, SHA256.Sum256 (bytes_of_string "world"));
               ("a.txt"%string, SHA256.Sum256 (bytes_of_string "hello"));
               ("sub/c.txt"%string, SHA256.Sum256 [])]
              Clock.zero) as (state & Hsnap & _ & _ & Hsize).
  - reflexivity.
  - discriminate.
  - apply (bool_decide_unpack _). reflexivity.
  - exists state. split; [exact Hsnap | exact Hsize].
Defined.

(** ** Differ *)

Lemma fold_left_append_omap {A B} (f : A -> option B) (step : list B -> A -> list B)
    (l : list A) (acc : list B) :
  (forall acc x, step acc x = match f x with Some y => acc ++ [y] | None => acc end) ->
  fold_left step l acc = acc ++ omap f l.
Proof.
  intros Hstep. revert acc. induction l as [|x l IH]; intros acc; cbn.
  - by rewrite app_nil_r.
  - rewrite IH, Hstep. destruct (f x); [|done]. by rewrite <-app_assoc.
Qed.

Lemma CompareSnapshots_Changes `{R : MapRange} `{T : TimePkg} (oldState newState : TreeState) :
  Changes (CompareSnapshots oldState newState)
  = omap (modifiedOf (FileHashes oldState)) (rangeMap FindModified (FileHashes newState))
    ++ omap (addedOf (FileHashes oldState)) (rangeMap FindAdded (FileHashes newState))
    ++ omap (deletedOf (FileHashes newState)) (rangeMap FindDeleted (FileHashes oldState)).
Proof.
  unfold CompareSnapshots. cbn [Changes].
  rewrite (fold_left_append_omap (deletedOf (FileHashes newState))).
  2:{ intros acc [p h]. unfold deletedOf. cbn. by destruct (_ !! p). }
  rewrite (fold_left_append_omap (addedOf (FileHashes oldState))).
  2:{ intros acc [p h]. unfold addedOf. cbn. by destruct (_ !! p). }
  rewrite (fold_left_append_omap (modifiedOf (FileHashes oldState))).
  2:{ intros acc [p h]. unfold modifiedOf. cbn. destruct (_ !! p); [|done].
      by destruct (negb _). }
  by rewrite <-app_assoc.
Qed.

Section Differ.
Context `{R : MapRange} {HR : MapRangeSpec R}.

Lemma elem_of_rangeMap (loop : rangeLoop) (m : gmap string bytes) (p : string) (h : bytes) :
  (p, h) ∈ rangeMap loop m <-> m !! p = Some h.
Proof. by rewrite rangeMap_perm, elem_of_map_to_list. Qed.

Lemma NoDup_rangeMap (loop : rangeLoop) (m : gmap string bytes) :
  NoDup (map fst (rangeMap loop m)).
Proof.
  change (NoDup ((rangeMap loop m).*1)).
  rewrite rangeMap_perm. apply NoDup_fst_map_to_list.
Qed.

Lemma elem_of_modified (old new : gmap string bytes) (c : FileChange.t) :
  c ∈ omap (modifiedOf old) (rangeMap FindModified new)
  <-> exists p ho hn, old !! p = Some ho /\ new !! p = Some hn /\ ho <> hn
        /\ c = FileChange.mk p Modified (Some ho) (Some hn).
Proof.
  rewrite list_elem_of_omap. split.
  - intros ([p hn] & Hin & Hc). apply elem_of_rangeMap in Hin.
    unfold modifiedOf in Hc. cbn in Hc.
    destruct (old !! p) as [ho|] eqn:Hold; [|done].
    destruct (equalHashes ho hn) eqn:Heq; [done|]. cbn in Hc.
    injection Hc as <-. exists p, ho, hn. split_and!; try done.
    intros ->. by rewrite (proj2 (equalHashes_spec hn hn) eq_refl) in Heq.
  - intros (p & ho & hn & Hold & Hnew & Hne & ->).
    exists (p, hn). split; [by apply elem_of_rangeMap|].
    unfold modifiedOf. cbn. rewrite Hold.
    destruct (equalHashes ho hn) eqn:Heq; [|done].
    by apply equalHashes_spec in Heq.
Qed.

Lemma elem_of_added (old new : gmap string bytes) (c : FileChange.t) :
  c ∈ omap (addedOf old) (rangeMap FindAdded new)
  <-> exists p hn, old !! p = None /\ new !! p = Some hn
        /\ c = FileChange.mk p Added None (Some hn).
Proof.
  rewrite list_elem_of_omap. split.
  - intros ([p hn] & Hin & Hc). apply elem_of_rangeMap in Hin.
    unfold addedOf in Hc. cbn in Hc.
    destruct (old !! p) as [ho|] eqn:Hold; [done|].
    injection Hc as <-. by exists p, hn.
  - intros (p & hn & Hold & Hnew & ->).
    exists (p, hn). split; [by apply elem_of_rangeMap|].
    unfold addedOf. cbn. by rewrite Hold.
Qed.

Lemma elem_of_deleted (old new : gmap string bytes) (c : FileChange.t) :
  c ∈ omap (deletedOf new) (rangeMap FindDeleted old)
  <-> exists p ho, old !! p = Some ho /\ new !! p = None
        /\ c = FileChange.mk p Deleted (Some ho) None.
Proof.
  rewrite list_elem_of_omap. split.
  - intros ([p ho] & Hin & Hc). apply elem_of_rangeMap in Hin.
    unfold deletedOf in Hc. cbn in Hc.
    destruct (new !! p) as [hn|] eqn:Hnew; [done|].
    injection Hc as <-. by exists p, ho.
  - intros (p & ho & Hold & Hnew & ->).
    exists (p, ho). split; [by apply elem_of_rangeMap|].
    unfold deletedOf. cbn. by rewrite Hnew.
Qed.

(** A pass emits at most one record per path. *)
Lemma NoDup_pass (f : string * bytes -> option FileChange.t) (l : list (string * bytes)) :
  (forall e c, f e = Some c -> FileChange.FileName c = fst e) ->
  NoDup (map fst l) -> NoDup (map FileChange.FileName (omap f l)).
Proof.
  intros Hname. induction l as [|e l IH]; cbn; intros Hnd; [constructor|].
  apply NoDup_cons in Hnd as [Hnotin Hnd].
  destruct (f e) as [c|] eqn:Hfe; cbn; [|by apply IH].
  apply NoDup_cons. split; [|by apply IH].
  intros Hin. apply Hnotin.
  apply list_elem_of_fmap in Hin as (c' & Hcc' & Hin).
  apply list_elem_of_omap in Hin as (e' & Hin & Hfe').
  rewrite <-(Hname _ _ Hfe), Hcc', (Hname _ _ Hfe').
  by apply (list_elem_of_fmap_2 fst).
Qed.
End Differ.

(** C2.  [CompareSnapshots old new] reports exactly: a [Modified]
    record with both digests for each path held by both maps with
    unequal digests, an [Added] record with the new digest only for
    each path of [new] absent from [old], a [Deleted] record with the
    old digest only for each path of [old] absent from [new]; no path
    occurs in two records, and a path with equal digests in both maps
    occurs in none. *)
Theorem C2_changes_classified `{R : MapRange} {HR : MapRangeSpec R} `{T : TimePkg}
    (oldState newState : TreeState) :
  let old := FileHashes oldState in
  let new := FileHashes newState in
  let changes := Changes (CompareSnapshots oldState newState) in
  (forall c, c ∈ changes <->
     (exists p ho hn, old !! p = Some ho /\ new !! p = Some hn /\ ho <> hn
        /\ c = FileChange.mk p Modified (Some ho) (Some hn))
     \/ (exists p hn, old !! p = None /\ new !! p = Some hn
        /\ c = FileChange.mk p Added None (Some hn))
     \/ (exists p ho, old !! p = Some ho /\ new !! p = None
        /\ c = FileChange.mk p Deleted (Some ho) None))
  /\ NoDup (map FileChange.FileName changes)
  /\ (forall p h, old !! p = Some h -> new !! p = Some h ->
        p ∉ map FileChange.FileName changes).
Proof.
  intros old new changes.
  assert (forall c, c ∈ changes <->
     (exists p ho hn, old !! p = Some ho /\ new !! p = Some hn /\ ho <> hn
        /\ c = FileChange.mk p Modified (Some ho) (Some hn))
     \/ (exists p hn, old !! p = None /\ new !! p = Some hn
        /\ c = FileChange.mk p Added None (Some hn))
     \/ (exists p ho, old !! p = Some ho /\ new !! p = None
        /\ c = FileChange.mk p Deleted (Some ho) None)) as Hmem.
  { intros c. unfold changes. rewrite CompareSnapshots_Changes, !elem_of_app.
    by rewrite elem_of_modified, elem_of_added, elem_of_deleted. }
  split_and!.
  - exact Hmem.
  - unfold changes. rewrite CompareSnapshots_Changes, !map_app.
    apply NoDup_app. split_and!.
    + apply NoDup_pass; [|apply NoDup_rangeMap].
      intros [p h] c. unfold modifiedOf. cbn.
      destruct (_ !! p); [|done]. destruct (negb _); [|done]. by intros [= <-].
    + intros p Hp Hp'.
      apply list_elem_of_fmap in Hp as (c & -> & Hc).
      apply elem_of_modified in Hc as (q & ho & hn & Hold & Hnew & _ & ->). cbn in Hp'.
      apply elem_of_app in Hp' as [Hp'|Hp'];
        apply list_elem_of_fmap in Hp' as (c' & Hq & Hc').
      * apply elem_of_added in Hc' as (q' & hn' & Hold' & _ & ->). cbn in Hq. congruence.
      * apply elem_of_deleted in Hc' as (q' & ho' & _ & Hnew' & ->). cbn in Hq. congruence.
    + apply NoDup_app. split_and!.
      * apply NoDup_pass; [|apply NoDup_rangeMap].
        intros [p h] c. unfold addedOf. cbn. destruct (_ !! p); [done|]. by intros [= <-].
      * intros p Hp Hp'.
        apply list_elem_of_fmap in Hp as (c & -> & Hc).
        apply elem_of_added in Hc as (q & hn & Hold & Hnew & ->). cbn in Hp'.
        apply list_elem_of_fmap in Hp' as (c' & Hq & Hc').
        apply elem_of_deleted in Hc' as (q' & ho' & _ & Hnew' & ->). cbn in Hq. congruence.
      * apply NoDup_pass; [|apply NoDup_rangeMap].
        intros [p h] c. unfold deletedOf. cbn. destruct (_ !! p); [done|]. by intros [= <-].
  - intros p h Hold Hnew Hin.
    apply list_elem_of_fmap in Hin as (c & Hp & Hc).
    apply Hmem in Hc as [(q & ho & hn & Ho & Hn & Hne & ->)
                        |[(q & hn & Ho & Hn & ->)|(q & ho & Ho & Hn & ->)]];
      cbn in Hp; subst q; congruence.
Qed.

Lemma C2_changes_classified_witness :
  let oldState := @mkTreeState clock Clock.zero None
                    (<["a.txt"%string := [x01]]> (<["b.txt"%string := [x02]]>
                       (<["d.txt"%string := [x04]]> ∅))) in
  let newState := @mkTreeState clock Clock.zero None
                    (<["a.txt"%string := [x09]]> (<["b.txt"%string := [x02]]>
                       (<["c.txt"%string := [x03]]> ∅))) in
  NoDup (map FileChange.FileName
           (Changes (CompareSnapshots (R := mapToListRange) oldState newState))).
Proof.
  cbv zeta.
  refine (proj1 (proj2
    (C2_changes_classified (R := mapToListRange) (HR := mapToListRange_spec) (T := clock)
       _ _))).
Defined.

Example CompareSnapshots_example :
  let oldState := @mkTreeState clock Clock.zero None
                    (<["a.txt"%string := [x01]]> (<["b.txt"%string := [x02]]>
                       (<["d.txt"%string := [x04]]> ∅))) in
  let newState := @mkTreeState clock Clock.zero None
                    (<["a.txt"%string := [x09]]> (<["b.txt"%string := [x02]]>
                       (<["c.txt"%string := [x03]]> ∅))) in
  Changes (CompareSnapshots (R := mapToListRange) oldState newState)
  ≡ₚ [ FileChange.mk "a.txt" Modified (Some [x01]) (Some [x09]);
       FileChange.mk "c.txt" Added None (Some [x03]);
       FileChange.mk "d.txt" Deleted (Some [x04]) None ].
Proof. vm_compute. reflexivity. Qed.

(** ** Persistence *)

(** C10.  Loading a file that holds the four-column header and no
    data row succeeds, with the zero time, a nil root hash and an empty
    map: the load does not ask for a file entry. *)
Theorem C10_header_only_loads_empty `{T : TimePkg}
    (fs : gmap string (list csvLine)) (filename : string) :
  fs !! filename = Some [csvRecord header] ->
  LoadSnapshot fs filename
  = Ok {| Timestamp := zeroTime; RootHash := None; FileHashes := ∅ |}.
Proof. intros Hfile. unfold LoadSnapshot. rewrite Hfile. reflexivity. Qed.

Lemma C10_header_only_loads_empty_witness :
  LoadSnapshot (T := clock) {[ "merkle_states/state_docs_20240115_103045.csv"%string
                                 := [csvRecord header] ]}
    "merkle_states/state_docs_20240115_103045.csv"
  = Ok (@mkTreeState clock Clock.zero None ∅).
Proof.
  apply (C10_header_only_loads_empty (T := clock)).
  apply lookup_singleton_eq.
Defined.

(** The rows [SaveSnapshot] writes for the entries of the map. *)
Lemma Read_four (a b c d : string) :
  Read 4 (csvRecord [a; b; c; d]) = (Ok [a; b; c; d], 4%nat).
Proof. reflexivity. Qed.

Section LoadSaved.
Context `{T : TimePkg}.
Variables (timestampStr rootHashStr : string).




End LoadSaved.

Lemma fold_insert_list_to_map (entries : list (string * bytes)) (m : gmap string bytes) :
  fold_left (fun m e => <[fst e := snd e]> m) entries m = list_to_map (rev entries) ∪ m.
Proof.
  revert m. induction entries as [|[p h] entries IH]; intros m; cbn.
  - by rewrite (left_id_L ∅ (∪)).
  - rewrite IH, list_to_map_app, <-(assoc_L (∪)). f_equal. cbn.
    by rewrite <-insert_union_l, (left_id_L ∅ (∪)).
Qed.









(** *** What [LoadSnapshot] reports *)

Section LoadErrors.
Context `{T : TimePkg}.

Lemma loadRow_four (state : TreeState) (row : list string) :
  length row = 4%nat -> exists state', loadRow state row = Ok state'.
Proof.
  destruct row as [|a [|b [|c [|d [|]]]]]; try done. intros _.
  unfold loadRow. cbn [index lookup list_lookup].
  destruct (IsZero (Timestamp state)), (RootHash state); cbn; eauto.
Qed.

Lemma loadRow_not_Err (state : TreeState) (row : list string) (e : error) :
  loadRow state row <> Err e.
Proof.
  unfold loadRow, index.
  destruct (IsZero (Timestamp state)), (RootHash state),
    (row !! 0%nat), (row !! 1%nat), (row !! 2%nat), (row !! 3%nat); by cbn.
Qed.

Lemma loadRows_wellFormed (lines : list csvLine) (state : TreeState) :
  forallb wellFormedLine lines = true ->
  exists state', loadRows 4 lines state = Ok state'.
Proof.
  revert state. induction lines as [|line lines IH]; intros state Hwf; [by eexists|].
  cbn in Hwf. apply andb_prop in Hwf as [Hline Hwf].
  destruct line as [row|msg]; [|done]. cbn in Hline. apply bool_decide_eq_true in Hline.
  cbn [loadRows]. unfold Read. cbn [Nat.ltb Nat.leb].
  destruct (decide (length row <> 4%nat)); [done|].
  destruct (loadRow_four state row Hline) as [state' ->]. cbn. apply IH, Hwf.
Qed.

Lemma loadRows_malformed (lines : list csvLine) (state : TreeState) :
  forallb wellFormedLine lines = false ->
  exists e, loadRows 4 lines state = Err e
            /\ (e = ErrFieldCount \/ exists msg, e = ErrCSV msg).
Proof.
  revert state. induction lines as [|line lines IH]; intros state Hwf; [done|].
  cbn [loadRows]. destruct line as [row|msg].
  - unfold Read. cbn [Nat.ltb Nat.leb].
    destruct (decide (length row <> 4%nat)) as [Hlen|Hlen]; [by eauto|].
    apply dec_stable in Hlen.
    destruct (loadRow_four state row Hlen) as [state' ->]. cbn.
    apply IH. cbn in Hwf. by rewrite (bool_decide_eq_true_2 _ Hlen) in Hwf.
  - cbn. eauto.
Qed.

Lemma loadRows_errors (fieldsPerRecord : nat) (lines : list csvLine) (state : TreeState)
    (e : error) :
  loadRows fieldsPerRecord lines state = Err e ->
  e = ErrFieldCount \/ exists msg, e = ErrCSV msg.
Proof.
  revert fieldsPerRecord state. induction lines as [|line lines IH];
    intros fieldsPerRecord state; [done|].
  cbn [loadRows]. destruct line as [row|msg]; unfold Read.
  - destruct (0 <? fieldsPerRecord)%nat;
      [destruct (decide (length row <> fieldsPerRecord))|].
    + intros [= <-]. by left.
    + destruct (loadRow state row) as [state'| |] eqn:Hrow; cbn; [apply IH| |done].
      by destruct (loadRow_not_Err _ _ _ Hrow).
    + destruct (loadRow state row) as [state'| |] eqn:Hrow; cbn; [apply IH| |done].
      by destruct (loadRow_not_Err _ _ _ Hrow).
  - intros [= <-]. eauto.
Qed.

Lemma validateHeader_errors (hdr : list string) (i : nat) (expected : list string)
    (e : error) :
  validateHeader hdr i expected = Err e -> e = ErrInvalidHeader.
Proof.
  revert i. induction expected as [|h expected IH]; intros i; [done|].
  cbn [validateHeader]. unfold index. destruct (hdr !! i) as [hi|]; cbn; [|done].
  destruct (decide (hi <> h)); [by intros [= <-] | apply IH].
Qed.

Lemma validateHeader_wrong (hdr : list string) :
  (4 <= length hdr)%nat -> firstn 4 hdr <> header ->
  validateHeader hdr 0 header = Err ErrInvalidHeader.
Proof.
  destruct hdr as [|a [|b [|c [|d rest]]]]; cbn [length]; try lia. intros _ Hne.
  unfold header in *. cbn [validateHeader index lookup list_lookup firstn] in *.
  cbn [mbind result_bind].
  repeat (match goal with
          | |- context [decide (?x <> ?y)] =>
              destruct (decide (x <> y)) as [?|Heq]; [done|apply dec_stable in Heq; subst]
          end).
  done.
Qed.

Lemma LoadSnapshot_errors (fs : gmap string (list csvLine)) (filename : string) (e : error) :
  LoadSnapshot fs filename = Err e ->
  (exists msg, e = ErrOS msg) \/ e = EOF \/ (exists msg, e = ErrCSV msg)
  \/ e = ErrFieldCount \/ e = ErrInvalidHeader.
Proof.
  unfold LoadSnapshot. destruct (fs !! filename) as [[|line lines]|].
  - intros [= <-]. eauto.
  - destruct line as [hdr|msg].
    + change (Read 0 (csvRecord hdr)) with (Ok hdr, length hdr). cbv beta iota.
      destruct (validateHeader hdr 0 header) as [[]| |] eqn:Hhdr; cbn [mbind result_bind].
      * intros He. apply loadRows_errors in He as [->|?]; eauto.
      * intros [= <-]. apply validateHeader_errors in Hhdr as ->. eauto 6.
      * done.
    + cbn. intros [= <-]. eauto 6.
  - intros [= <-]. eauto.
Qed.
End LoadErrors.

Lemma LoadSnapshot_one_row `{T : TimePkg} (fs : gmap string (list csvLine))
    (filename timestamp rootHash filePath fileHash : string) :
  fs !! filename
  = Some [csvRecord header; csvRecord [timestamp; rootHash; filePath; fileHash]] ->
  LoadSnapshot fs filename
  = Ok {| Timestamp := if IsZero zeroTime
                       then default zeroTime (Parse RFC3339 timestamp)
                       else zeroTime;
          RootHash := Some (fst (DecodeString rootHash));
          FileHashes := {[ filePath := fst (DecodeString fileHash) ]} |}.
Proof.
  intros Hfile. unfold LoadSnapshot. rewrite Hfile.
  change (Read 0 (csvRecord header)) with (Ok header, 4%nat).
  change (validateHeader header 0 header) with (Ok tt). cbn [mbind result_bind].
  cbn [loadRows]. rewrite Read_four. unfold loadRow.
  cbn [Timestamp RootHash FileHashes index lookup list_lookup].
  destruct (IsZero zeroTime); cbn; by rewrite insert_empty.
Qed.

(** C9, amended.  Under the four-column header, [LoadSnapshot]
    succeeds exactly when every data line is a record of four fields,
    whatever the fields hold: a root hash or file hash that is not
    hexadecimal is cut at the first bad character and a timestamp that
    does not parse becomes the zero time, without an error.  A missing
    file, a syntax or field-count error of the CSV reader and a wrong
    header are returned as errors.  [FindLatestSnapshot] with no
    matching file returns its own error, "no previous state found",
    which [LoadSnapshot] never returns. *)
Theorem C9_load_reports `{S : Sorter} `{T : TimePkg} `{O : OSEnv} :
  (forall fs filename lines,
      fs !! filename = Some (csvRecord header :: lines) ->
      if forallb wellFormedLine lines
      then exists state, LoadSnapshot fs filename = Ok state
      else exists e, LoadSnapshot fs filename = Err e
                     /\ (e = ErrFieldCount \/ exists msg, e = ErrCSV msg))
  /\ (forall fs filename timestamp rootHash filePath fileHash,
      fs !! filename
      = Some [csvRecord header; csvRecord [timestamp; rootHash; filePath; fileHash]] ->
      LoadSnapshot fs filename
      = Ok {| Timestamp := if IsZero zeroTime
                           then default zeroTime (Parse RFC3339 timestamp)
                           else zeroTime;
              RootHash := Some (fst (DecodeString rootHash));
              FileHashes := {[ filePath := fst (DecodeString fileHash) ]} |})
  /\ (forall fs filename,
      fs !! filename = None -> exists msg, LoadSnapshot fs filename = Err (ErrOS msg))
  /\ (forall fs filename hdr lines,
      fs !! filename = Some (csvRecord hdr :: lines) ->
      (4 <= length hdr)%nat -> firstn 4 hdr <> header ->
      LoadSnapshot fs filename = Err ErrInvalidHeader)
  /\ (forall c folderPath fs,
      Glob fs (storageDir c ++ "/state_" ++ Base folderPath ++ "_*.csv")%string = Ok [] ->
      FindLatestSnapshot c folderPath fs = Err (ErrNoPreviousState (Base folderPath)))
  /\ (forall fs filename folderName,
      LoadSnapshot fs filename <> Err (ErrNoPreviousState folderName)).
Proof.
  split_and!.
  - intros fs filename lines Hfile. unfold LoadSnapshot. rewrite Hfile.
    change (Read 0 (csvRecord header)) with (Ok header, 4%nat).
    change (validateHeader header 0 header) with (Ok tt). cbn [mbind result_bind].
    destruct (forallb wellFormedLine lines) eqn:Hwf.
    + by apply loadRows_wellFormed.
    + by apply loadRows_malformed.
  - intros. by apply LoadSnapshot_one_row.
  - intros fs filename Hfile. unfold LoadSnapshot. rewrite Hfile. eauto.
  - intros fs filename hdr lines Hfile Hlen Hne. unfold LoadSnapshot. rewrite Hfile.
    change (Read 0 (csvRecord hdr)) with (Ok hdr, length hdr). cbv beta iota.
    by rewrite validateHeader_wrong.
  - intros c folderPath fs Hglob. unfold FindLatestSnapshot. by rewrite Hglob.
  - intros fs filename folderName He.
    apply LoadSnapshot_errors in He as [[? ?]|[?|[[? ?]|[?|?]]]]; done.
Qed.

Lemma C9_load_reports_witness :
  (exists state,
      LoadSnapshot (T := clock)
        {[ "merkle_states/state_docs_20240115_103045.csv"%string
           := [csvRecord header;
               csvRecord ["yesterday"; "zz"; "a.txt"; "12g4"]%string] ]}
        "merkle_states/state_docs_20240115_103045.csv" = Ok state)
  /\ FindLatestSnapshot (S := insertionSort) (O := flatStore)
       (NewClient "merkle_states") "./docs" ∅
     = Err (ErrNoPreviousState "docs").
Proof.
  pose proof (C9_load_reports (S := insertionSort) (T := clock) (O := flatStore))
    as (Hload & _ & _ & _ & Hfind & _).
  split.
  - refine (Hload _ _ [csvRecord ["yesterday"; "zz"; "a.txt"; "12g4"]%string] _).
    apply lookup_singleton_eq.
  - apply (Hfind (NewClient "merkle_states") "./docs"%string ∅). reflexivity.
Defined.

(** C9 as stated fails: a root hash and a file hash that are not
    hexadecimal and a timestamp that does not parse load without
    error. *)
Lemma C9_counterexample :
  let file := [csvRecord header;
               csvRecord ["yesterday"; "zz"; "a.txt"; "12g4"]%string] in
  snd (DecodeString "zz") = Some (InvalidByteError "z")
  /\ snd (DecodeString "12g4") = Some (InvalidByteError "g")
  /\ Parse (TimePkg := clock) RFC3339 "yesterday" = None
  /\ LoadSnapshot (T := clock) {[ "state.csv"%string := file ]} "state.csv"
     = Ok (@mkTreeState clock Clock.zero (Some []) {[ "a.txt"%string := [x12] ]}).
Proof. cbv zeta. split_and!; reflexivity. Qed.

(** ** Root digest and changes *)

(** C5 fails on the code: the file names are not hashed, so a renamed
    file keeps the root digest while the differ reports it as added
    and deleted; the printer, seeing equal root digests, reports no
    change. *)
Lemma C5_equal_roots_nonempty_changes :
  let before := [WalkDir; WalkFile "a.txt" (Ok (bytes_of_string "hello"))] in
  let after := [WalkDir; WalkFile "b.txt" (Ok (bytes_of_string "hello"))] in
  exists oldState newState,
    CreateSnapshot (S := insertionSort) (T := clock) before (Clock.mk 63840911445 0 0)
    = Ok oldState
    /\ CreateSnapshot (S := insertionSort) (T := clock) after (Clock.mk 63840911446 0 0)
       = Ok newState
    /\ RootHash oldState = RootHash newState
    /\ rootHashIdentical (CompareSnapshots (R := mapToListRange) oldState newState) = true
    /\ Changes (CompareSnapshots (R := mapToListRange) oldState newState)
       = [ FileChange.mk "b.txt" Added None
             (Some (SHA256.Sum256 (bytes_of_string "hello")));
           FileChange.mk "a.txt" Deleted
             (Some (SHA256.Sum256 (bytes_of_string "hello"))) None ].
Proof.
  cbv zeta. eexists _, _. split_and!.
  - reflexivity.
  - reflexivity.
  - reflexivity.
  - vm_compute. reflexivity.
  - vm_compute. reflexivity.
Qed.

(** The same with three files against four: the self-paired last leaf
    of the odd level hashes like a fourth file with the third's
    content. *)
Lemma self_pairing_hides_added_file (e1 e2 e3 : string * bytes) (path4 : string) :
  Hash <$> buildMerkleTree (map leafOf [e1; e2; e3])
  = Hash <$> buildMerkleTree (map leafOf [e1; e2; e3; (path4, snd e3)]).
Proof. cbn [map]. by simp buildMerkleTree. Qed.

(** Two files, "hello" and "world": the root is the digest of the two
    content digests, and changing the first file gives one [Modified]
    record. *)
Example two_files_scenario :
  let hello := bytes_of_string "hello" in
  let world := bytes_of_string "world" in
  let before := [WalkDir; WalkFile "b.txt" (Ok world); WalkFile "a.txt" (Ok hello)] in
  let after := [WalkDir; WalkFile "b.txt" (Ok world);
                WalkFile "a.txt" (Ok (bytes_of_string "HELLO"))] in
  exists oldState newState,
    CreateSnapshot (S := insertionSort) (T := clock) before Clock.zero = Ok oldState
    /\ CreateSnapshot (S := insertionSort) (T := clock) after Clock.zero = Ok newState
    /\ RootHash oldState
       = Some (hashData (SHA256.Sum256 hello ++ SHA256.Sum256 world))
    /\ RootHash newState <> RootHash oldState
    /\ Changes (CompareSnapshots (R := mapToListRange) oldState newState)
       = [ FileChange.mk "a.txt" Modified
             (Some (SHA256.Sum256 hello))
             (Some (SHA256.Sum256 (bytes_of_string "HELLO"))) ].
Proof.
  cbv zeta. eexists _, _. split_and!.
  - reflexivity.
  - reflexivity.
  - reflexivity.
  - vm_compute. discriminate.
  - vm_compute. reflexivity.
Qed.

(** ** The run of [Doc/example.md]

    The seven files of [test-folder] with the digests of the stored
    snapshot, in the order of the stored rows: the root digest, the
    name of the snapshot file and the timestamp column are those the
    document shows. *)
Example documented_run :
  let hx := fun s => fst (DecodeString s) in
  let entries :=
    [ ("test-folder-2/test-text-1.txt",
       hx "79800b5bcf3e35f34283199660e70fb26a750103378608efd17bf5fde03b2453");
      ("test-folder-2/test-text-2.txt",
       hx "28c8bb6b48b4681d5421cd922a491008f55a9b1567b8eeef6f4645a6007b5264");
      ("test-text-2.txt",
       hx "8da57ffc24f7e98320481f7aff6470799670a618566c6c395e4dbe1e8ea3db96");
      ("new-file.txt",
       hx "6f09abcb5b65e6e29787b925b4a1086e7ba65788fafa265ba7761a26ee807e54");
      ("test-folder-1/new-test-folder/test-text-1.txt",
       hx "bc6333c6f9c263d45f3e0d01a7a629bdb7e49dc86c5c4d8c8971f64ef20711a7");
      ("test-folder-1/new-test-folder/test-text-2.txt",
       hx "bf2bd557ba244ec6783b4bbd3c3cbf6d2b19a187657820b02445212e240a83a1");
      ("test-folder-1/test-text-1.txt",
       hx "ec0b0d64ff0432082e75ec8da7867595d1fe26d97a09a3baeafa1dc179e8a3fc") ]%string in
  let tree := treeFromLeaves (S := insertionSort) (map leafOf entries) in
  let now := Clock.mk 63886263551 0 21600 in
  let state := @mkTreeState clock now (rootHashOf tree) (list_to_map entries) in
  EncodeToString <$> rootHashOf tree
  = Some "c3f0e775c1da05224cf3853734107741262c57b7036726cff69a2184a482c5be"%string
  /\ snapshotFileName (O := flatStore) (NewClient "merkle_states") state "test-folder"
     = "merkle_states/state_test-folder_20250623_141911.csv"%string
  /\ Format (TimePkg := clock) now RFC3339 = "2025-06-23T14:19:11+06:00"%string.
Proof. cbv zeta. split_and!; vm_compute; reflexivity. Qed.

(** * Further properties of the client *)

(** ** [equalHashes] *)

(** X1.  [equalHashes] holds exactly when the two slices hold the same
    bytes; slices of different lengths are never equal, and neither are
    slices that differ at one index. *)
Theorem equalHashes_bytewise (h1 h2 : bytes) :
  (equalHashes h1 h2 = true <-> h1 = h2)
  /\ (length h1 <> length h2 -> equalHashes h1 h2 = false)
  /\ (forall i b1 b2, h1 !! i = Some b1 -> h2 !! i = Some b2 -> b1 <> b2 ->
        equalHashes h1 h2 = false).
Proof.
  split_and!.
  - apply equalHashes_spec.
  - intros Hlen. destruct (equalHashes h1 h2) eqn:Heq; [|done].
    apply equalHashes_spec in Heq. by subst.
  - intros i b1 b2 H1 H2 Hne. destruct (equalHashes h1 h2) eqn:Heq; [|done].
    apply equalHashes_spec in Heq. subst. congruence.
Qed.

(** ** The shape of the built tree *)

Lemma nextLevel_hashes (nodes nodes' : list MerkleNode) :
  map Hash nodes = map Hash nodes' ->
  map Hash (nextLevel nodes) = map Hash (nextLevel nodes').
Proof.
  revert nodes'. induction nodes as [|x|x y l IH] using list_pair_ind;
    intros nodes' Heq.
  - by destruct nodes'.
  - destruct nodes' as [|x' [|]]; try done. cbn in *. injection Heq as Hx.
    by rewrite Hx.
  - destruct nodes' as [|x' [|y' l']]; try done. cbn [map] in Heq.
    injection Heq as Hx Hy Hl. cbn [nextLevel map parentNode Hash].
    by rewrite Hx, Hy, (IH l' Hl).
Qed.

(** X2.  The root digest is a function of the sequence of node digests
    alone: two levels with the same digests in the same order reduce to
    roots with the same digest, whatever the file names are. *)
Theorem root_digest_ignores_names (nodes nodes' : list MerkleNode) :
  map Hash nodes = map Hash nodes' ->
  Hash <$> buildMerkleTree nodes = Hash <$> buildMerkleTree nodes'.
Proof.
  revert nodes'.
  induction nodes as [|node|nl nr rest IH] using buildMerkleTree_wf_ind;
    intros nodes' Heq.
  - by destruct nodes'.
  - destruct nodes' as [|node' [|]]; try done. simp buildMerkleTree. cbn in *.
    by injection Heq as ->.
  - destruct nodes' as [|nl' [|nr' rest']]; try done. simp buildMerkleTree.
    apply IH. by apply nextLevel_hashes.
Qed.

Lemma root_digest_ignores_names_witness :
  Hash <$> buildMerkleTree (map leafOf [("a"%string, [x01]); ("b"%string, [x02]);
                                        ("c"%string, [x03])])
  = Hash <$> buildMerkleTree (map leafOf [("x"%string, [x01]); ("y"%string, [x02]);
                                          ("z"%string, [x03])]).
Proof. apply root_digest_ignores_names. reflexivity. Defined.

Lemma nextLevel_leaves_prefix (nodes : list MerkleNode) :
  exists copies,
    levelLeaves (nextLevel nodes) = levelLeaves nodes ++ copies
    /\ forall e, e ∈ copies -> e ∈ levelLeaves nodes.
Proof.
  unfold levelLeaves.
  induction nodes as [|x|x y l (copies & IH & Hin)] using list_pair_ind.
  - exists []. split; [done|]. intros e He. by apply elem_of_nil in He.
  - exists (leavesOf x). cbn. rewrite !app_nil_r. split; [done|]. by intros e He.
  - exists copies. cbn [nextLevel flat_map]. cbn [parentNode leavesOf].
    rewrite IH, <-!app_assoc. split; [done|].
    intros e He. apply elem_of_app. right. apply elem_of_app. right. by apply Hin.
Qed.

Lemma buildMerkleTree_leaves_prefix (nodes : list MerkleNode) (root : MerkleNode) :
  buildMerkleTree nodes = Some root ->
  exists copies,
    leavesOf root = levelLeaves nodes ++ copies
    /\ forall e, e ∈ copies -> e ∈ levelLeaves nodes.
Proof.
  induction nodes as [|node|nl nr rest IH] using buildMerkleTree_wf_ind;
    simp buildMerkleTree; intros Hroot.
  - done.
  - injection Hroot as <-. exists []. unfold levelLeaves. cbn. rewrite !app_nil_r.
    split; [done|]. intros e He. by apply elem_of_nil in He.
  - destruct (IH Hroot) as (copies & Hleaves & Hin).
    destruct (nextLevel_leaves_prefix (nl :: nr :: rest)) as (copies' & Hnext & Hin').
    exists (copies' ++ copies). rewrite Hleaves, Hnext, <-app_assoc. split; [done|].
    intros e He. apply elem_of_app in He as [He|He]; [by apply Hin'|].
    apply Hin in He. rewrite Hnext in He.
    apply elem_of_app in He as [He|He]; [done | by apply Hin'].
Qed.

(** X3.  The leaves of the tree built from a non-empty leaf list, read
    left to right, are the given entries in their order followed by
    copies of given entries: self-pairing repeats leaves, and the
    reduction neither drops, reorders nor invents one. *)
Theorem built_tree_leaves (entries : list (string * bytes)) :
  entries <> [] ->
  exists root copies,
    buildMerkleTree (map leafOf entries) = Some root
    /\ leavesOf root = entries ++ copies
    /\ forall e, e ∈ copies -> e ∈ entries.
Proof.
  intros Hne.
  destruct (buildMerkleTree_Some (map leafOf entries)) as [root Hroot].
  { by destruct entries. }
  destruct (buildMerkleTree_leaves_prefix _ _ Hroot) as (copies & Hleaves & Hin).
  rewrite levelLeaves_leafOf in Hleaves, Hin. by exists root, copies.
Qed.

Lemma built_tree_leaves_witness :
  exists root copies,
    buildMerkleTree (map leafOf [("a"%string, [x01]); ("b"%string, [x02]);
                                 ("c"%string, [x03])]) = Some root
    /\ leavesOf root
       = [("a"%string, [x01]); ("b"%string, [x02]); ("c"%string, [x03])] ++ copies.
Proof.
  destruct (built_tree_leaves [("a"%string, [x01]); ("b"%string, [x02]);
                               ("c"%string, [x03])])
    as (root & copies & Hroot & Hleaves & _); [discriminate|].
  by exists root, copies.
Defined.

Lemma nextLevel_halves (nodes : list MerkleNode) :
  (2 * length (nextLevel nodes) = length nodes
   \/ 2 * length (nextLevel nodes) = length nodes + 1)%nat.
Proof. induction nodes using list_pair_ind; cbn [nextLevel length]; lia. Qed.

Lemma nextLevel_depths (d : nat) (nodes : list MerkleNode) :
  Forall (fun n => leafDepths n = replicate (2 ^ d) d) nodes ->
  Forall (fun n => leafDepths n = replicate (2 ^ S d) (S d)) (nextLevel nodes).
Proof.
  assert (forall l r, leafDepths l = replicate (2 ^ d) d ->
                      leafDepths r = replicate (2 ^ d) d ->
                      leafDepths (parentNode l r) = replicate (2 ^ S d) (S d)) as Hparent.
  { intros l r Hl Hr. cbn [parentNode leafDepths]. rewrite Hl, Hr.
    rewrite <-replicate_add, fmap_replicate. f_equal. cbn. lia. }
  induction nodes as [|x|x y l IH] using list_pair_ind; intros Hall.
  - constructor.
  - inv Hall. repeat constructor. by apply Hparent.
  - inv Hall. match goal with H : Forall _ (y :: l) |- _ => inv H end.
    cbn [nextLevel]. constructor; [by apply Hparent | by apply IH].
Qed.

Lemma buildMerkleTree_depths (d : nat) (nodes : list MerkleNode) (root : MerkleNode) :
  Forall (fun n => leafDepths n = replicate (2 ^ d) d) nodes ->
  buildMerkleTree nodes = Some root ->
  exists k,
    leafDepths root = replicate (2 ^ (d + k)) (d + k)%nat
    /\ (length nodes <= 2 ^ k /\ 2 ^ k < 2 * length nodes)%nat.
Proof.
  revert d.
  induction nodes as [|node|nl nr rest IH] using buildMerkleTree_wf_ind;
    simp buildMerkleTree; intros d Hall Hroot.
  - done.
  - injection Hroot as <-. inv Hall. exists 0%nat. rewrite Nat.add_0_r. cbn. split; [done|lia].
  - destruct (IH (S d) (nextLevel_depths d _ Hall) Hroot) as (k & Hdepth & Hlo & Hhi).
    exists (S k). replace (d + S k)%nat with (S d + k)%nat by lia. split; [done|].
    pose proof (nextLevel_halves (nl :: nr :: rest)) as Hhalf.
    remember (length (nextLevel (nl :: nr :: rest))) as m.
    remember (length (nl :: nr :: rest)) as n.
    assert (2 <= n)%nat as Hn by (subst n; cbn; lia).
    rewrite Nat.pow_succ_r'. destruct k as [|k].
    + cbn in *. lia.
    + rewrite Nat.pow_succ_r' in *. lia.
Qed.

(** X4.  The tree built from [n] leaves, [n] at least one, is a perfect
    binary tree: every leaf lies at the same depth [k], there are
    [2 ^ k] leaf positions, and [k] is the least depth that has room
    for the [n] leaves. *)
Theorem built_tree_perfect (entries : list (string * bytes)) :
  entries <> [] ->
  exists root k,
    buildMerkleTree (map leafOf entries) = Some root
    /\ leafDepths root = replicate (2 ^ k) k
    /\ length (leavesOf root) = (2 ^ k)%nat
    /\ (length entries <= 2 ^ k /\ 2 ^ k < 2 * length entries)%nat.
Proof.
  intros Hne.
  destruct (buildMerkleTree_Some (map leafOf entries)) as [root Hroot].
  { by destruct entries. }
  destruct (buildMerkleTree_depths 0 (map leafOf entries) root) as (k & Hdepth & Hbounds);
    [|done|].
  { apply Forall_forall. intros n Hn. by apply list_elem_of_fmap in Hn as (e & -> & _). }
  cbn [Nat.add] in Hdepth. rewrite length_map in Hbounds.
  exists root, k. split_and!; try done; try apply Hbounds.
  assert (forall node, length (leavesOf node) = length (leafDepths node)) as Hlen.
  { induction node as [hash lft rgt isLeaf fileName IHl IHr] using MerkleNode_children_ind.
    cbn [leavesOf leafDepths]. destruct isLeaf; [done|].
    rewrite length_map, !length_app.
    destruct lft as [l|], rgt as [r|]; cbn in IHl, IHr; cbn [length]; lia. }
  by rewrite Hlen, Hdepth, length_replicate.
Qed.

Lemma built_tree_perfect_witness :
  exists root,
    buildMerkleTree (map leafOf [("a"%string, [x01]); ("b"%string, [x02]);
                                 ("c"%string, [x03]); ("d"%string, [x04]);
                                 ("e"%string, [x05])]) = Some root
    /\ length (leavesOf root) = 8%nat.
Proof.
  destruct (built_tree_perfect [("a"%string, [x01]); ("b"%string, [x02]);
                                ("c"%string, [x03]); ("d"%string, [x04]);
                                ("e"%string, [x05])])
    as (root & k & Hroot & _ & Hlen & Hlo & Hhi); [discriminate|].
  exists root. split; [exact Hroot|]. rewrite Hlen.
  cbn [length] in Hlo, Hhi.
  destruct k as [|[|[|[|k]]]]; cbn in Hlo, Hhi |- *; lia.
Defined.

(** ** What the differ reports *)

Section DifferReports.
Context `{R : MapRange} {HR : MapRangeSpec R} `{T : TimePkg}.

Lemma elem_of_Changes (oldState newState : TreeState) (c : FileChange.t) :
  c ∈ Changes (CompareSnapshots oldState newState) <->
  (exists p ho hn, FileHashes oldState !! p = Some ho /\ FileHashes newState !! p = Some hn
     /\ ho <> hn /\ c = FileChange.mk p Modified (Some ho) (Some hn))
  \/ (exists p hn, FileHashes oldState !! p = None /\ FileHashes newState !! p = Some hn
     /\ c = FileChange.mk p Added None (Some hn))
  \/ (exists p ho, FileHashes oldState !! p = Some ho /\ FileHashes newState !! p = None
     /\ c = FileChange.mk p Deleted (Some ho) None).
Proof.
  rewrite CompareSnapshots_Changes, !elem_of_app.
  by rewrite elem_of_modified, elem_of_added, elem_of_deleted.
Qed.

Lemma elem_of_Changes_name (oldState newState : TreeState) (c : FileChange.t) :
  c ∈ Changes (CompareSnapshots oldState newState) ->
  FileHashes oldState !! FileChange.FileName c <> FileHashes newState !! FileChange.FileName c.
Proof.
  intros Hc. apply elem_of_Changes in Hc
    as [(p & ho & hn & Ho & Hn & Hne & ->)|[(p & hn & Ho & Hn & ->)|(p & ho & Ho & Hn & ->)]];
    cbn; congruence.
Qed.

Lemma Changes_NoDup_names (oldState newState : TreeState) :
  NoDup (map FileChange.FileName (Changes (CompareSnapshots oldState newState))).
Proof.
  rewrite CompareSnapshots_Changes, !map_app.
  assert (forall old, forall e c, modifiedOf old e = Some c -> FileChange.FileName c = fst e)
    as Hm.
  { intros old [p h] c. unfold modifiedOf. cbn.
    destruct (_ !! p); [|done]. destruct (negb _); [|done]. by intros [= <-]. }
  assert (forall old, forall e c, addedOf old e = Some c -> FileChange.FileName c = fst e)
    as Ha.
  { intros old [p h] c. unfold addedOf. cbn. destruct (_ !! p); [done|]. by intros [= <-]. }
  assert (forall new, forall e c, deletedOf new e = Some c -> FileChange.FileName c = fst e)
    as Hd.
  { intros new [p h] c. unfold deletedOf. cbn. destruct (_ !! p); [done|]. by intros [= <-]. }
  apply NoDup_app. split_and!.
  - apply NoDup_pass; [apply Hm | apply NoDup_rangeMap].
  - intros p Hp Hp'.
    apply list_elem_of_fmap in Hp as (c & -> & Hc).
    apply elem_of_modified in Hc as (q & ho & hn & Hold & Hnew & _ & ->). cbn in Hp'.
    apply elem_of_app in Hp' as [Hp'|Hp'];
      apply list_elem_of_fmap in Hp' as (c' & Hq & Hc').
    + apply elem_of_added in Hc' as (q' & hn' & Hold' & _ & ->). cbn in Hq. congruence.
    + apply elem_of_deleted in Hc' as (q' & ho' & _ & Hnew' & ->). cbn in Hq. congruence.
  - apply NoDup_app. split_and!.
    + apply NoDup_pass; [apply Ha | apply NoDup_rangeMap].
    + intros p Hp Hp'.
      apply list_elem_of_fmap in Hp as (c & -> & Hc).
      apply elem_of_added in Hc as (q & hn & Hold & Hnew & ->). cbn in Hp'.
      apply list_elem_of_fmap in Hp' as (c' & Hq & Hc').
      apply elem_of_deleted in Hc' as (q' & ho' & _ & Hnew' & ->). cbn in Hq. congruence.
    + apply NoDup_pass; [apply Hd | apply NoDup_rangeMap].
Qed.

Lemma Changes_nil_iff (oldState newState : TreeState) :
  Changes (CompareSnapshots oldState newState) = []
  <-> FileHashes oldState = FileHashes newState.
Proof.
  split.
  - intros Hnil. apply map_eq. intros p.
    destruct (FileHashes oldState !! p) as [ho|] eqn:Ho,
             (FileHashes newState !! p) as [hn|] eqn:Hn; [| | |done].
    + destruct (decide (ho = hn)) as [->|Hne]; [done|]. exfalso.
      eapply (not_elem_of_nil (FileChange.mk p Modified (Some ho) (Some hn))).
      rewrite <-Hnil. apply elem_of_Changes. left. by exists p, ho, hn.
    + exfalso. eapply (not_elem_of_nil (FileChange.mk p Deleted (Some ho) None)).
      rewrite <-Hnil. apply elem_of_Changes. right. right. by exists p, ho.
    + exfalso. eapply (not_elem_of_nil (FileChange.mk p Added None (Some hn))).
      rewrite <-Hnil. apply elem_of_Changes. right. left. by exists p, hn.
  - intros Heq. destruct (Changes (CompareSnapshots oldState newState)) as [|c l] eqn:Hc;
      [done|]. exfalso.
    assert (c ∈ Changes (CompareSnapshots oldState newState)) as Hin by (rewrite Hc; left).
    apply elem_of_Changes_name in Hin. by rewrite Heq in Hin.
Qed.

Lemma list_is_singleton {A B} (f : A -> B) (l : list A) (x : A) :
  NoDup (map f l) -> x ∈ l -> (forall y, y ∈ l -> y = x) -> l = [x].
Proof.
  intros Hnd Hx Hall. destruct l as [|a l]; [by apply elem_of_nil in Hx|].
  assert (a = x) as -> by (apply Hall; left).
  destruct l as [|b l]; [done|]. exfalso.
  assert (b = x) as -> by (apply Hall; right; left).
  cbn in Hnd. apply NoDup_cons in Hnd as [Hnotin _]. apply Hnotin. left.
Qed.
End DifferReports.

(** X5.  [CompareSnapshots] reports no change exactly when the two
    snapshots hold the same path-to-digest map; timestamps and root
    digests play no part.  In particular a snapshot compared with
    itself gives an empty report. *)
Theorem no_changes_iff_same_files `{R : MapRange} {HR : MapRangeSpec R} `{T : TimePkg}
    (oldState newState : TreeState) :
  (Changes (CompareSnapshots oldState newState) = []
   <-> FileHashes oldState = FileHashes newState)
  /\ Changes (CompareSnapshots oldState oldState) = [].
Proof. split; [apply Changes_nil_iff | by apply Changes_nil_iff]. Qed.

Lemma no_changes_iff_same_files_witness :
  let files := <["a.txt"%string := [x01]]> (<["b.txt"%string := [x02]]> ∅) in
  Changes (CompareSnapshots (R := mapToListRange)
             (@mkTreeState clock Clock.zero None files)
             (@mkTreeState clock (Clock.mk 5 0 0) (Some [x07]) files)) = [].
Proof.
  intros files.
  apply (proj1 (no_changes_iff_same_files (R := mapToListRange) (HR := mapToListRange_spec)
                  (T := clock) _ _)).
  reflexivity.
Defined.

(** X6.  Comparing in the other direction gives the same records read
    backwards: an added file becomes a deleted one and conversely, and
    a modified file has its two digests exchanged. *)
Theorem compare_swapped `{R : MapRange} {HR : MapRangeSpec R} `{T : TimePkg}
    (oldState newState : TreeState) :
  map swapChange (Changes (CompareSnapshots oldState newState))
  ≡ₚ Changes (CompareSnapshots newState oldState).
Proof.
  assert (forall c, FileChange.FileName (swapChange c) = FileChange.FileName c) as Hname
    by done.
  assert (forall c, swapChange (swapChange c) = c) as Hinv.
  { intros [p [] ho hn]; done. }
  assert (forall o n c, c ∈ Changes (CompareSnapshots o n) ->
                        swapChange c ∈ Changes (CompareSnapshots n o)) as Hswap.
  { intros o n c Hc. apply elem_of_Changes. apply elem_of_Changes in Hc
      as [(p & ho & hn & Ho & Hn & Hne & ->)|[(p & hn & Ho & Hn & ->)|(p & ho & Ho & Hn & ->)]].
    - left. by exists p, hn, ho.
    - right. right. by exists p, hn.
    - right. left. by exists p, ho. }
  apply NoDup_Permutation.
  - apply (NoDup_fmap_1 FileChange.FileName).
    rewrite <-list_fmap_compose.
    rewrite (list_fmap_ext _ FileChange.FileName) by done.
    apply Changes_NoDup_names.
  - apply (NoDup_fmap_1 FileChange.FileName), Changes_NoDup_names.
  - intros c. split.
    + intros Hc. apply list_elem_of_fmap in Hc as (c' & -> & Hc'). by apply Hswap.
    + intros Hc. apply list_elem_of_fmap. exists (swapChange c). split; [by rewrite Hinv|].
      by apply Hswap.
Qed.

Lemma compare_swapped_witness :
  let oldState := @mkTreeState clock Clock.zero None
                    (<["a.txt"%string := [x01]]> (<["d.txt"%string := [x04]]> ∅)) in
  let newState := @mkTreeState clock Clock.zero None
                    (<["a.txt"%string := [x09]]> (<["c.txt"%string := [x03]]> ∅)) in
  map swapChange (Changes (CompareSnapshots (R := mapToListRange) oldState newState))
  ≡ₚ Changes (CompareSnapshots (R := mapToListRange) newState oldState).
Proof.
  intros oldState newState.
  exact (compare_swapped (R := mapToListRange) (HR := mapToListRange_spec) (T := clock)
           oldState newState).
Defined.

(** X7.  The report lists the modified files first, then the added
    ones, then the deleted ones, whatever the order in which the maps
    are visited. *)
Theorem changes_grouped `{R : MapRange} `{T : TimePkg} (oldState newState : TreeState) :
  exists modified added deleted,
    Changes (CompareSnapshots oldState newState) = modified ++ added ++ deleted
    /\ Forall (fun c => FileChange.ChangeType c = Modified) modified
    /\ Forall (fun c => FileChange.ChangeType c = Added) added
    /\ Forall (fun c => FileChange.ChangeType c = Deleted) deleted.
Proof.
  eexists _, _, _. split; [apply CompareSnapshots_Changes|].
  split_and!; apply Forall_forall; intros c Hc;
    apply list_elem_of_omap in Hc as ([p h] & _ & Hc); revert Hc.
  - unfold modifiedOf. cbn. destruct (_ !! p); [|done].
    destruct (negb _); [|done]. by intros [= <-].
  - unfold addedOf. cbn. destruct (_ !! p); [done|]. by intros [= <-].
  - unfold deletedOf. cbn. destruct (_ !! p); [done|]. by intros [= <-].
Qed.

(** X8.  One edit, one record: when the new map is the old one with
    the digest of one path replaced by a different digest, the report
    is that single [Modified] record; with one path added, the single
    [Added] record; with one path removed, the single [Deleted]
    record. *)
Theorem single_edit_single_record `{R : MapRange} {HR : MapRangeSpec R} `{T : TimePkg}
    (oldState newState : TreeState) (path : string) (digest : bytes) :
  let old := FileHashes oldState in
  let new := FileHashes newState in
  let changes := Changes (CompareSnapshots oldState newState) in
  (forall oldDigest, old !! path = Some oldDigest -> oldDigest <> digest ->
     new = <[path := digest]> old ->
     changes = [FileChange.mk path Modified (Some oldDigest) (Some digest)])
  /\ (old !! path = None -> new = <[path := digest]> old ->
      changes = [FileChange.mk path Added None (Some digest)])
  /\ (old !! path = Some digest -> new = delete path old ->
      changes = [FileChange.mk path Deleted (Some digest) None]).
Proof.
  intros old new changes.
  assert (forall c0 : FileChange.t,
            c0 ∈ changes ->
            (forall p, p <> path -> old !! p = new !! p) ->
            FileChange.FileName c0 = path ->
            (forall c, c ∈ changes -> FileChange.FileName c = path -> c = c0) ->
            changes = [c0]) as Hone.
  { intros c0 Hc0 Hother Hname Huniq.
    apply (list_is_singleton FileChange.FileName); [apply Changes_NoDup_names|done|].
    intros c Hc. apply Huniq; [done|].
    destruct (decide (FileChange.FileName c = path)) as [|Hne]; [done|].
    apply elem_of_Changes_name in Hc. by destruct (Hc (Hother _ Hne)). }
  split_and!.
  - intros oldDigest Hold Hne Hnew. apply Hone.
    + apply elem_of_Changes. left. exists path, oldDigest, digest.
      split_and!; try done. fold new. by rewrite Hnew, lookup_insert_eq.
    + intros p Hp. by rewrite Hnew, lookup_insert_ne.
    + done.
    + intros c Hc Hname. apply elem_of_Changes in Hc
        as [(p & ho & hn & Ho & Hn & _ & ->)|[(p & hn & Ho & Hn & ->)|(p & ho & Ho & Hn & ->)]];
        cbn in Hname; subst p; fold old in Ho; fold new in Hn;
        rewrite Hnew, lookup_insert_eq in Hn; congruence.
  - intros Hold Hnew. apply Hone.
    + apply elem_of_Changes. right. left. exists path, digest.
      split_and!; try done. fold new. by rewrite Hnew, lookup_insert_eq.
    + intros p Hp. by rewrite Hnew, lookup_insert_ne.
    + done.
    + intros c Hc Hname. apply elem_of_Changes in Hc
        as [(p & ho & hn & Ho & Hn & _ & ->)|[(p & hn & Ho & Hn & ->)|(p & ho & Ho & Hn & ->)]];
        cbn in Hname; subst p; fold old in Ho; fold new in Hn;
        rewrite Hnew, lookup_insert_eq in Hn; congruence.
  - intros Hold Hnew. apply Hone.
    + apply elem_of_Changes. right. right. exists path, digest.
      split_and!; try done. fold new. by rewrite Hnew, lookup_delete_eq.
    + intros p Hp. by rewrite Hnew, lookup_delete_ne.
    + done.
    + intros c Hc Hname. apply elem_of_Changes in Hc
        as [(p & ho & hn & Ho & Hn & _ & ->)|[(p & hn & Ho & Hn & ->)|(p & ho & Ho & Hn & ->)]];
        cbn in Hname; subst p; fold old in Ho; fold new in Hn;
        rewrite Hnew, lookup_delete_eq in Hn; congruence.
Qed.

Lemma single_edit_single_record_witness :
  let old := <["a.txt"%string := [x01]]> (<["b.txt"%string := [x02]]> ∅) in
  Changes (CompareSnapshots (R := mapToListRange)
             (@mkTreeState clock Clock.zero None old)
             (@mkTreeState clock Clock.zero None (<["a.txt"%string := [x09]]> old)))
  = [FileChange.mk "a.txt" Modified (Some [x01]) (Some [x09])].
Proof.
  intros old.
  refine (proj1 (single_edit_single_record (R := mapToListRange) (HR := mapToListRange_spec)
                   (T := clock)
                   (@mkTreeState clock Clock.zero None old)
                   (@mkTreeState clock Clock.zero None (<["a.txt"%string := [x09]]> old))
                   "a.txt" [x09]) [x01] _ _ _).
  - apply lookup_insert_eq.
  - discriminate.
  - reflexivity.
Defined.

(** ** The walk *)

Lemma walkFolder_Ok (folder : list WalkEntry) (leafNodes result : list MerkleNode) :
  walkFolder folder leafNodes = Ok result ->
  result = leafNodes ++ map leafOf (map digestOf (filesOf folder)).
Proof.
  revert leafNodes. induction folder as [|entry folder IH]; intros leafNodes; cbn.
  - intros [= <-]. by rewrite app_nil_r.
  - destruct entry as [e| |p [c|e|]]; cbn; try done.
    + apply IH.
    + intros Hw. apply IH in Hw. by rewrite <-app_assoc in Hw.
Qed.

Lemma walkFolder_walkable (folder : list WalkEntry) (leafNodes : list MerkleNode) :
  forallb walkable folder = true ->
  walkFolder folder leafNodes = Ok (leafNodes ++ map leafOf (map digestOf (filesOf folder))).
Proof.
  revert leafNodes. induction folder as [|entry folder IH]; intros leafNodes; cbn.
  - by rewrite app_nil_r.
  - destruct entry as [e| |p [c|e|]]; cbn; try done.
    + apply IH.
    + intros Hw. rewrite IH by done. by rewrite <-app_assoc.
Qed.

(** X9.  The first error of the walk, raised by the traversal or by
    reading a file, is what [createMerkleTreeFromFolder], [GetTree] and
    [CreateSnapshot] return, whatever was walked before and whatever
    comes after: no tree is built from the files already hashed. *)
Theorem walk_error_aborts `{S : Sorter} `{T : TimePkg}
    (before after : list WalkEntry) (failed : WalkEntry) (e : error) (now : Time) :
  forallb walkable before = true ->
  (failed = WalkErr e \/ exists relPath, failed = WalkFile relPath (Err e)) ->
  createMerkleTreeFromFolder (before ++ failed :: after) = Err e
  /\ GetTree (before ++ failed :: after) = Err e
  /\ CreateSnapshot (before ++ failed :: after) now = Err e.
Proof.
  intros Hbefore Hfailed.
  assert (forall leafNodes, walkFolder (before ++ failed :: after) leafNodes = Err e) as Hw.
  { induction before as [|entry before IH]; intros leafNodes.
    - destruct Hfailed as [->|[p ->]]; done.
    - cbn in Hbefore. apply andb_prop in Hbefore as [Hentry Hbefore].
      destruct entry as [e'| |p [c|e'|]]; try done; cbn; by apply IH. }
  unfold CreateSnapshot, GetTree, createMerkleTreeFromFolder. by rewrite Hw.
Qed.

Lemma walk_error_aborts_witness :
  CreateSnapshot (S := insertionSort) (T := clock)
    [WalkDir; WalkFile "a.txt" (Ok [x01]);
     WalkFile "b.txt" (Err (ErrOS "permission denied"));
     WalkFile "c.txt" (Ok [x03])] Clock.zero
  = Err (ErrOS "permission denied").
Proof.
  refine (proj2 (proj2 (walk_error_aborts (S := insertionSort) (T := clock)
            [WalkDir; WalkFile "a.txt" (Ok [x01])] [WalkFile "c.txt" (Ok [x03])]
            (WalkFile "b.txt" (Err (ErrOS "permission denied")))
            (ErrOS "permission denied") Clock.zero _ _))).
  - reflexivity.
  - right. by exists "b.txt"%string.
Defined.

(** X10.  Directories contribute nothing: dropping the directory
    entries from a walk changes neither the tree nor the error that
    [createMerkleTreeFromFolder] returns. *)
Theorem directories_ignored `{S : Sorter} (folder : list WalkEntry) :
  createMerkleTreeFromFolder folder
  = createMerkleTreeFromFolder (List.filter (fun e => negb (isWalkDir e)) folder).
Proof.
  unfold createMerkleTreeFromFolder. f_equal.
  generalize (@nil MerkleNode) as leafNodes.
  induction folder as [|entry folder IH]; intros leafNodes; [done|].
  destruct entry as [e| |p c]; cbn; [done|apply IH|].
  destruct (hashFile c); cbn; [apply IH|done..].
Qed.

(** ** Flattening and created snapshots *)

(** X11.  [collectFileHashes] on a nil node leaves the map as it is;
    on a tree it writes one entry per leaf path and touches nothing
    else: a path that is no leaf keeps what the map held, a leaf path
    gets the digest of a leaf with that path, and the paths of the
    result are those of the map and of the leaves. *)
Theorem collectFileHashes_lookup (node : MerkleNode) (fileHashes : gmap string bytes) :
  collectFileHashes None fileHashes = fileHashes
  /\ (forall path, path ∉ map fst (leavesOf node) ->
        collectFileHashes (Some node) fileHashes !! path = fileHashes !! path)
  /\ (forall path, path ∈ map fst (leavesOf node) ->
        exists digest, (path, digest) ∈ leavesOf node
                       /\ collectFileHashes (Some node) fileHashes !! path = Some digest)
  /\ dom (collectFileHashes (Some node) fileHashes)
     = list_to_set (map fst (leavesOf node)) ∪ dom fileHashes.
Proof.
  cbn [collectFileHashes]. rewrite collectNode_leaves, rev_reverse.
  split_and!.
  - done.
  - intros path Hpath. apply lookup_union_r, not_elem_of_list_to_map_1.
    change ((reverse (leavesOf node)).*1) with (fst <$> reverse (leavesOf node)).
    by rewrite fmap_reverse, elem_of_reverse.
  - intros path Hpath.
    destruct ((list_to_map (reverse (leavesOf node)) : gmap string bytes) !! path)
      as [digest|] eqn:Hlook.
    + exists digest. split.
      * apply elem_of_list_to_map_2 in Hlook. by rewrite elem_of_reverse in Hlook.
      * by rewrite (lookup_union_Some_l _ _ _ _ Hlook).
    + exfalso. apply not_elem_of_list_to_map in Hlook. apply Hlook.
      change ((reverse (leavesOf node)).*1) with (fst <$> reverse (leavesOf node)).
      by rewrite fmap_reverse, elem_of_reverse.
  - rewrite dom_union_L, dom_list_to_map_L. f_equal.
    change ((reverse (leavesOf node)).*1) with (fst <$> reverse (leavesOf node)).
    by rewrite fmap_reverse, reverse_Permutation.
Qed.

Lemma digestOf_paths (files : list (string * bytes)) :
  map fst (map digestOf files) = map fst files.
Proof. induction files as [|[p c] files IH]; [done|]. cbn. by rewrite IH. Qed.

Section CreatedSnapshots.
Context `{S : Sorter} {HS : SorterSpec S} `{T : TimePkg}.

Lemma CreateSnapshot_of_leaves (folder : list WalkEntry) (now : Time) :
  let entries := map digestOf (filesOf folder) in
  walkFolder folder [] = Ok (map leafOf entries) -> entries <> [] ->
  exists root,
    buildMerkleTree (sortSlice lessFileName (map leafOf entries)) = Some root
    /\ GetTree folder = Ok {| Root := Some root |}
    /\ CreateSnapshot folder now
       = Ok {| Timestamp := now; RootHash := Some (Hash root);
               FileHashes := list_to_map
                               (rev (levelLeaves
                                       (sortSlice lessFileName (map leafOf entries)))) |}.
Proof.
  intros entries Hwalk Hne.
  destruct (treeFromLeaves_nonempty (map leafOf entries)) as (root & Htree & Hroot).
  { by destruct entries. }
  exists root. split; [done|].
  assert (GetTree folder = Ok {| Root := Some root |}) as Hget.
  { unfold GetTree, createMerkleTreeFromFolder. rewrite Hwalk. cbn. by rewrite Htree. }
  split; [done|]. unfold CreateSnapshot. rewrite Hget. cbn.
  by rewrite collectNode_leaves, (right_id_L ∅ (∪)), (buildMerkleTree_leaves _ _ Hroot).
Qed.

Lemma CreateSnapshot_Ok_walk (folder : list WalkEntry) (now : Time) (state : TreeState) :
  CreateSnapshot folder now = Ok state ->
  walkFolder folder [] = Ok (map leafOf (map digestOf (filesOf folder)))
  /\ filesOf folder <> [].
Proof.
  unfold CreateSnapshot, GetTree, createMerkleTreeFromFolder.
  destruct (walkFolder folder []) as [leafNodes| |] eqn:Hwalk; cbn; [|done..].
  apply walkFolder_Ok in Hwalk. cbn in Hwalk. subst leafNodes.
  unfold treeFromLeaves. destruct (filesOf folder); [done|]. done.
Qed.
End CreatedSnapshots.

(** X12.  A snapshot that [CreateSnapshot] returns is never empty: it
    carries the time handed in, the digest of the root of the tree that
    [GetTree] returns, which is not nil, and exactly the paths of the
    files met by the walk. *)
Theorem created_snapshot_content `{S : Sorter} {HS : SorterSpec S} `{T : TimePkg}
    (folder : list WalkEntry) (now : Time) (state : TreeState) :
  CreateSnapshot folder now = Ok state ->
  Timestamp state = now
  /\ (exists root, GetTree folder = Ok {| Root := Some root |}
                   /\ RootHash state = Some (Hash root))
  /\ dom (FileHashes state) = list_to_set (map fst (filesOf folder))
  /\ FileHashes state <> ∅.
Proof.
  intros Hsnap. destruct (CreateSnapshot_Ok_walk _ _ _ Hsnap) as [Hwalk Hne].
  destruct (CreateSnapshot_of_leaves folder now Hwalk) as (root & _ & Hget & Hstate).
  { by destruct (filesOf folder). }
  rewrite Hstate in Hsnap. injection Hsnap as <-. cbn [Timestamp RootHash FileHashes].
  assert (dom (list_to_map (rev (levelLeaves (sortSlice lessFileName
                 (map leafOf (map digestOf (filesOf folder))))))
               : gmap string bytes)
          = list_to_set (map fst (filesOf folder))) as Hdom.
  { rewrite dom_list_to_map_L, rev_reverse.
    change ((reverse ?l).*1) with (fst <$> reverse l).
    rewrite fmap_reverse, reverse_Permutation.
    rewrite (levelLeaves_perm _ _ (sortSlice_perm _ lessFileName _)).
    by rewrite levelLeaves_leafOf, digestOf_paths. }
  split_and!; [done|by exists root|done|].
  intros Hempty. rewrite Hempty, dom_empty_L in Hdom.
  destruct (filesOf folder) as [|[p c] files]; [done|].
  cbn in Hdom. set_solver.
Qed.

Lemma created_snapshot_content_witness :
  exists state,
    CreateSnapshot (S := insertionSort) (T := clock)
      [WalkDir; WalkFile "b.txt" (Ok [x02]); WalkFile "a.txt" (Ok [x01])] Clock.zero
    = Ok state
    /\ FileHashes state <> ∅.
Proof.
  eexists. split; [reflexivity|].
  refine (proj2 (proj2 (proj2
    (created_snapshot_content (S := insertionSort) (HS := insertionSort_spec) (T := clock)
       [WalkDir; WalkFile "b.txt" (Ok [x02]); WalkFile "a.txt" (Ok [x01])]
       Clock.zero _ eq_refl)))).
Defined.

(** X13.  Two walks that meet the same readable files, with distinct
    paths, in different orders and with any directories in between
    give snapshots with the same root digest and the same map, path to
    SHA-256 of the content; comparing them reports no change. *)
Theorem snapshot_independent_of_walk_order
    `{S : Sorter} {HS : SorterSpec S} `{R : MapRange} {HR : MapRangeSpec R} `{T : TimePkg}
    (folder1 folder2 : list WalkEntry) (now1 now2 : Time) :
  forallb walkable folder1 = true -> forallb walkable folder2 = true ->
  filesOf folder1 <> [] -> NoDup (map fst (filesOf folder1)) ->
  filesOf folder1 ≡ₚ filesOf folder2 ->
  exists state1 state2,
    CreateSnapshot folder1 now1 = Ok state1
    /\ CreateSnapshot folder2 now2 = Ok state2
    /\ RootHash state1 = RootHash state2
    /\ FileHashes state1 = list_to_map (map digestOf (filesOf folder1))
    /\ FileHashes state2 = FileHashes state1
    /\ Changes (CompareSnapshots state1 state2) = []
    /\ rootHashIdentical (CompareSnapshots state1 state2) = true.
Proof.
  intros Hw1 Hw2 Hne Hnd Hperm.
  assert (filesOf folder2 <> []) as Hne2.
  { intros Hnil. rewrite Hnil in Hperm. by apply Permutation_nil_r in Hperm. }
  assert (map digestOf (filesOf folder1) ≡ₚ map digestOf (filesOf folder2)) as Hperm'
    by (by apply fmap_Permutation).
  assert (NoDup (map fst (map digestOf (filesOf folder1)))) as Hnd'
    by (by rewrite digestOf_paths).
  destruct (CreateSnapshot_of_leaves folder1 now1) as (root1 & Hroot1 & _ & Hs1).
  { by rewrite walkFolder_walkable. }
  { by destruct (filesOf folder1). }
  destruct (CreateSnapshot_of_leaves folder2 now2) as (root2 & Hroot2 & _ & Hs2).
  { by rewrite walkFolder_walkable. }
  { by destruct (filesOf folder2). }
  rewrite <-(sortSlice_leaves_unique _ _ Hnd' Hperm') in Hroot2, Hs2.
  assert (root2 = root1) as -> by congruence.
  assert (list_to_map (rev (levelLeaves (sortSlice lessFileName
                 (map leafOf (map digestOf (filesOf folder1))))))
          =@{gmap string bytes} list_to_map (map digestOf (filesOf folder1))) as Hmap.
  { symmetry. apply list_to_map_proper; [done|].
    rewrite rev_reverse, reverse_Permutation.
    rewrite (levelLeaves_perm _ _ (sortSlice_perm _ lessFileName _)).
    by rewrite levelLeaves_leafOf. }
  eexists _, _. split; [exact Hs1|]. split; [exact Hs2|].
  cbn [RootHash FileHashes]. split_and!; try done.
  - by apply Changes_nil_iff.
  - unfold rootHashIdentical. cbn. by apply equalHashes_spec.
Qed.

Lemma snapshot_independent_of_walk_order_witness :
  let folder1 := [WalkDir; WalkFile "b.txt" (Ok [x02]); WalkFile "a.txt" (Ok [x01])] in
  let folder2 := [WalkFile "a.txt" (Ok [x01]); WalkDir; WalkFile "b.txt" (Ok [x02])] in
  exists state1 state2,
    CreateSnapshot (S := insertionSort) (T := clock) folder1 Clock.zero = Ok state1
    /\ CreateSnapshot (S := insertionSort) (T := clock) folder2 (Clock.mk 9 0 0) = Ok state2
    /\ Changes (CompareSnapshots (R := mapToListRange) state1 state2) = [].
Proof.
  intros folder1 folder2.
  destruct (snapshot_independent_of_walk_order
              (S := insertionSort) (HS := insertionSort_spec)
              (R := mapToListRange) (HR := mapToListRange_spec) (T := clock)
              folder1 folder2 Clock.zero (Clock.mk 9 0 0))
    as (state1 & state2 & H1 & H2 & _ & _ & _ & Hchanges & _).
  - reflexivity.
  - reflexivity.
  - discriminate.
  - apply (bool_decide_unpack _). vm_compute. exact I.
  - apply perm_swap.
  - by exists state1, state2.
Defined.

(** ** Loading *)

Section LoadRows.
Context `{T : TimePkg}.

Let entryOf (row : storedRow) : string * bytes :=
  (rowFilePath row, fst (DecodeString (rowFileHash row))).

Lemma loadRow_recordOf (state : TreeState) (row : storedRow) :
  loadRow state (recordOf row)
  = Ok {| Timestamp := if IsZero (Timestamp state)
                       then default zeroTime (Parse RFC3339 (rowTimestamp row))
                       else Timestamp state;
          RootHash := Some (match RootHash state with
                            | Some h => h
                            | None => fst (DecodeString (rowRootHash row))
                            end);
          FileHashes := <[rowFilePath row := fst (DecodeString (rowFileHash row))]>
                          (FileHashes state) |}.
Proof.
  unfold loadRow, recordOf. cbn [index lookup list_lookup].
  by destruct (IsZero (Timestamp state)), (RootHash state).
Qed.

Lemma loadRows_settled (rows : list storedRow) (state : TreeState) (root : bytes) :
  RootHash state = Some root ->
  exists timestamp,
    loadRows 4 (map (fun row => csvRecord (recordOf row)) rows) state
    = Ok {| Timestamp := timestamp; RootHash := Some root;
            FileHashes := fold_left (fun m e => <[fst e := snd e]> m) (map entryOf rows)
                            (FileHashes state) |}
    /\ (IsZero (Timestamp state) = false -> timestamp = Timestamp state).
Proof.
  revert state. induction rows as [|row rows IH]; intros [ts rh fh] Hroot;
    cbn in Hroot; subst rh.
  - by exists ts.
  - cbn [map loadRows]. unfold recordOf at 1. rewrite Read_four.
    change [rowTimestamp row; rowRootHash row; rowFilePath row; rowFileHash row]
      with (recordOf row).
    rewrite loadRow_recordOf. cbn [mbind result_bind Timestamp RootHash FileHashes].
    edestruct IH as (timestamp & -> & Hts); [reflexivity|].
    exists timestamp. split; [done|]. cbn [Timestamp] in Hts |- *.
    intros Hnz. rewrite Hnz in Hts. by apply Hts.
Qed.
End LoadRows.

(** X14.  Under the header, the first data row alone decides the root
    hash, and the timestamp when its timestamp column parses to a time
    that is not zero; the map takes every row, and of two rows with the
    same path the later one wins. *)
Theorem load_first_and_last_rows `{T : TimePkg}
    (fs : gmap string (list csvLine)) (filename : string)
    (first : storedRow) (others : list storedRow) :
  fs !! filename
  = Some (csvRecord header :: map (fun row => csvRecord (recordOf row)) (first :: others)) ->
  exists state,
    LoadSnapshot fs filename = Ok state
    /\ RootHash state = Some (fst (DecodeString (rowRootHash first)))
    /\ (IsZero zeroTime = true ->
        forall t, Parse RFC3339 (rowTimestamp first) = Some t -> IsZero t = false ->
                  Timestamp state = t)
    /\ (forall path, path ∈ dom (FileHashes state)
                     <-> path ∈ map rowFilePath (first :: others))
    /\ (forall before row after,
          first :: others = before ++ row :: after ->
          rowFilePath row ∉ map rowFilePath after ->
          FileHashes state !! rowFilePath row = Some (fst (DecodeString (rowFileHash row)))).
Proof.
  intros Hfile. unfold LoadSnapshot. rewrite Hfile.
  change (Read 0 (csvRecord header)) with (Ok header, 4%nat).
  change (validateHeader header 0 header) with (Ok tt). cbn [mbind result_bind].
  cbn [map loadRows]. unfold recordOf at 1. rewrite Read_four.
  change [rowTimestamp first; rowRootHash first; rowFilePath first; rowFileHash first]
    with (recordOf first).
  rewrite loadRow_recordOf. cbn [mbind result_bind Timestamp RootHash FileHashes].
  edestruct (loadRows_settled others) as (timestamp & -> & Hts); [reflexivity|].
  cbn [Timestamp FileHashes] in Hts.
  eexists. split; [reflexivity|]. cbn [Timestamp RootHash FileHashes].
  set (entryOf := fun row : storedRow =>
                    (rowFilePath row, fst (DecodeString (rowFileHash row)))).
  assert (fold_left (fun m e => <[fst e := snd e]> m) (map entryOf others)
            (<[rowFilePath first := fst (DecodeString (rowFileHash first))]> ∅)
          =@{gmap string bytes} list_to_map (rev (map entryOf (first :: others)))) as ->.
  { change (<[rowFilePath first := fst (DecodeString (rowFileHash first))]> ∅)
      with (fold_left (fun (m : gmap string bytes) e => <[fst e := snd e]> m)
              [entryOf first] ∅).
    rewrite <-fold_left_app. cbn [app].
    by rewrite fold_insert_list_to_map, (right_id_L ∅ (∪)). }
  split_and!.
  - done.
  - intros Hzero t Hparse Hnz. rewrite Hzero, Hparse in Hts. cbn in Hts. by apply Hts.
  - intros path. rewrite dom_list_to_map_L, elem_of_list_to_set, rev_reverse.
    change ((reverse ?l).*1) with (fst <$> reverse l).
    rewrite fmap_reverse, elem_of_reverse, <-list_fmap_compose. done.
  - intros before row after Hrows Hlast. rewrite Hrows.
    rewrite map_app, rev_app_distr. cbn [map rev].
    rewrite <-!app_assoc, list_to_map_app. cbn [app].
    rewrite lookup_union_r.
    + cbn. apply lookup_insert_eq.
    + apply not_elem_of_list_to_map_1. rewrite rev_reverse.
      change ((reverse ?l).*1) with (fst <$> reverse l).
      by rewrite fmap_reverse, elem_of_reverse, <-list_fmap_compose.
Qed.

Lemma load_first_and_last_rows_witness :
  exists state,
    LoadSnapshot (T := clock)
      {[ "state.csv"%string
         := csvRecord header
            :: map (fun row => csvRecord (recordOf row))
                 [mkStoredRow "2024-01-15T10:30:45Z" "0aff" "a.txt" "01";
                  mkStoredRow "2025-01-01T00:00:00Z" "ffff" "a.txt" "02"] ]}
      "state.csv" = Ok state
    /\ RootHash state = Some [x0a; xff].
Proof.
  destruct (load_first_and_last_rows (T := clock)
              {[ "state.csv"%string
                 := csvRecord header
                    :: map (fun row => csvRecord (recordOf row))
                         [mkStoredRow "2024-01-15T10:30:45Z" "0aff" "a.txt" "01";
                          mkStoredRow "2025-01-01T00:00:00Z" "ffff" "a.txt" "02"] ]}
              "state.csv"
              (mkStoredRow "2024-01-15T10:30:45Z" "0aff" "a.txt" "01")
              [mkStoredRow "2025-01-01T00:00:00Z" "ffff" "a.txt" "02"])
    as (state & Hload & Hroot & _).
  - apply lookup_singleton_eq.
  - exists state. split; [exact Hload | exact Hroot].
Defined.

(** X15.  Only the first four header columns are checked.  A header
    that goes on after the four expected columns is accepted, and sets
    the number of fields every data row must have, so that a
    four-field row is then refused; a header that stops before the
    fourth expected column makes [LoadSnapshot] panic on the index, not
    return an error. *)
Theorem header_columns `{T : TimePkg}
    (fs : gmap string (list csvLine)) (filename : string) :
  (forall extra,
      fs !! filename = Some [csvRecord (header ++ extra)] ->
      LoadSnapshot fs filename
      = Ok {| Timestamp := zeroTime; RootHash := None; FileHashes := ∅ |})
  /\ (forall extra row lines,
      extra <> [] -> length row = 4%nat ->
      fs !! filename = Some (csvRecord (header ++ extra) :: csvRecord row :: lines) ->
      LoadSnapshot fs filename = Err ErrFieldCount)
  /\ (forall hdr missing lines,
      header = hdr ++ missing -> missing <> [] ->
      fs !! filename = Some (csvRecord hdr :: lines) ->
      LoadSnapshot fs filename = Panic).
Proof.
  split_and!.
  - intros extra Hfile. unfold LoadSnapshot. rewrite Hfile. reflexivity.
  - intros extra row lines Hextra Hrow Hfile. unfold LoadSnapshot. rewrite Hfile.
    change (Read 0 (csvRecord (header ++ extra)))
      with (Ok (header ++ extra), length (header ++ extra)).
    cbv beta iota. change (validateHeader (header ++ extra) 0 header) with (Ok tt).
    cbn [mbind result_bind loadRows]. unfold Read.
    rewrite length_app. cbn [header length Nat.add Nat.ltb Nat.leb].
    destruct (decide (length row <> S (S (S (S (length extra)))))) as [|Heq]; [done|].
    exfalso. apply Heq. destruct extra; [done|]. cbn. lia.
  - intros hdr missing lines Hhdr Hmissing Hfile. unfold LoadSnapshot. rewrite Hfile.
    change (Read 0 (csvRecord hdr)) with (Ok hdr, length hdr). cbv beta iota.
    unfold header in Hhdr.
    destruct hdr as [|a [|b [|c [|d hdr]]]]; cbn in Hhdr.
    + reflexivity.
    + injection Hhdr as <- _. reflexivity.
    + injection Hhdr as <- <- _. reflexivity.
    + injection Hhdr as <- <- <- _. reflexivity.
    + injection Hhdr as _ _ _ _ Hrest. destruct hdr, missing; done.
Qed.

Lemma header_columns_witness :
  LoadSnapshot (T := clock)
    {[ "state.csv"%string := [csvRecord ["timestamp"; "root_hash"]%string;
                              csvRecord ["2024-01-15T10:30:45Z"; "0aff"]%string] ]}
    "state.csv" = Panic.
Proof.
  refine (proj2 (proj2 (header_columns (T := clock) _ "state.csv"))
            ["timestamp"; "root_hash"]%string ["file_path"; "file_hash"]%string
            [csvRecord ["2024-01-15T10:30:45Z"; "0aff"]%string] _ _ _).
  - reflexivity.
  - discriminate.
  - apply lookup_singleton_eq.
Defined.

(** ** Saving and finding *)



(** X17.  The name of a stored snapshot keeps of the folder its last
    path element only and of the time the second only.  Two folders
    with the same last element share their stored snapshots:
    [FindLatestSnapshot] answers the same for both, and a snapshot of
    one saved in the same second as a snapshot of the other replaces
    it. *)
Theorem snapshot_names_collide `{S : Sorter} `{R : MapRange} `{T : TimePkg} `{O : OSEnv}
    (c : MerkleClient) (state1 state2 : TreeState) (folder1 folder2 : string)
    (fs : gmap string (list csvLine)) :
  Base folder1 = Base folder2 ->
  FindLatestSnapshot c folder1 fs = FindLatestSnapshot c folder2 fs
  /\ (Format (Timestamp state1) "20060102_150405"
      = Format (Timestamp state2) "20060102_150405" ->
      snapshotFileName c state1 folder1 = snapshotFileName c state2 folder2
      /\ fst (SaveSnapshot c state2 folder2 (fst (SaveSnapshot c state1 folder1 fs)))
         = fst (SaveSnapshot c state2 folder2 fs)).
Proof.
  intros Hbase. split.
  - unfold FindLatestSnapshot. by rewrite Hbase.
  - intros Hsecond.
    assert (snapshotFileName c state1 folder1 = snapshotFileName c state2 folder2) as Hname.
    { unfold snapshotFileName. by rewrite Hbase, Hsecond. }
    split; [done|]. unfold SaveSnapshot. rewrite Hname.
    destruct (MkdirAll (storageDir c)); [done|].
    destruct (Create (snapshotFileName c state2 folder2)); [done|].
    cbn. by rewrite insert_insert_eq.
Qed.

Lemma snapshot_names_collide_witness :
  let state1 := @mkTreeState clock (Clock.mk 63840911445 100 0) (Some [x0a])
                  (<["a.txt"%string := [x01]]> ∅) in
  let state2 := @mkTreeState clock (Clock.mk 63840911445 900 0) (Some [x0b])
                  (<["z.txt"%string := [x02]]> ∅) in
  snapshotFileName (O := flatStore) (NewClient "merkle_states") state1 "/home/ann/docs"
  = snapshotFileName (O := flatStore) (NewClient "merkle_states") state2 "/srv/docs/".
Proof.
  intros state1 state2.
  exact (proj1 (proj2 (snapshot_names_collide (S := insertionSort) (R := mapToListRange)
                         (T := clock) (O := flatStore) (NewClient "merkle_states")
                         state1 state2 "/home/ann/docs" "/srv/docs/" ∅ eq_refl) eq_refl)).
Defined.

Lemma index_last (l : list string) (x : string) :
  index (l ++ [x]) (length (l ++ [x]) - 1) = Ok x.
Proof.
  unfold index. rewrite length_app. cbn [length].
  replace (length l + 1 - 1)%nat with (length l + 0)%nat by lia.
  by rewrite lookup_app_r, Nat.add_comm, Nat.add_sub by lia.
Qed.

(** X18.  When the pattern matches at least one stored file,
    [FindLatestSnapshot] returns one of the matching names, and no
    matching name is greater in the order of strings; an error of
    [filepath.Glob] is returned as it is. *)
Theorem FindLatestSnapshot_greatest `{S : Sorter} {HS : SorterSpec S} `{O : OSEnv}
    (c : MerkleClient) (folderPath : string) (fs : gmap string (list csvLine)) :
  let pattern := (storageDir c ++ "/state_" ++ Base folderPath ++ "_*.csv")%string in
  (forall files, Glob fs pattern = Ok files -> files <> [] ->
     exists latest,
       FindLatestSnapshot c folderPath fs = Ok latest
       /\ latest ∈ files
       /\ forall name, name ∈ files -> String.ltb latest name = false)
  /\ (forall e, Glob fs pattern = Err e -> FindLatestSnapshot c folderPath fs = Err e).
Proof.
  intros pattern. split.
  - intros files Hglob Hne. unfold FindLatestSnapshot. fold pattern. rewrite Hglob.
    cbn [mbind result_bind]. destruct files as [|f files]; [done|]. cbn [length Nat.eqb].
    pose proof (sortSlice_perm _ String.ltb (f :: files)) as Hperm.
    pose proof (sortSlice_sorted _ String.ltb (f :: files) string_ltb_StrictWeak) as Hsorted.
    destruct (sortSlice String.ltb (f :: files)) as [|a sorted] eqn:Hs using rev_ind.
    { by apply Permutation_nil_cons in Hperm. }
    clear IHsorted. rename a into latest, sorted into smaller.
    exists latest. rewrite index_last. split; [done|]. split.
    + rewrite <-Hperm. apply elem_of_app. right. left.
    + intros name Hname. rewrite <-Hperm in Hname.
      apply elem_of_app in Hname as [Hname|Hname].
      * apply StronglySorted_app in Hsorted as (Hle & _ & _).
        apply (Hle name latest Hname). left.
      * apply list_elem_of_singleton in Hname as ->. apply string_ltb_irrefl.
  - intros e Hglob. unfold FindLatestSnapshot. fold pattern. by rewrite Hglob.
Qed.

Lemma FindLatestSnapshot_greatest_witness :
  exists latest,
    FindLatestSnapshot (S := insertionSort) (O := flatStore) (NewClient "merkle_states") "./docs"
      (<["merkle_states/state_docs_20240115_103045.csv"%string := []]>
         (<["merkle_states/state_docs_20250623_141911.csv"%string := []]>
            (<["merkle_states/state_other_20260101_000000.csv"%string := []]> ∅)))
    = Ok latest
    /\ String.ltb latest "merkle_states/state_docs_20250623_141911.csv" = false.
Proof.
  destruct (proj1 (FindLatestSnapshot_greatest (S := insertionSort) (HS := insertionSort_spec)
                     (O := flatStore) (NewClient "merkle_states") "./docs"
                     (<["merkle_states/state_docs_20240115_103045.csv"%string := []]>
                        (<["merkle_states/state_docs_20250623_141911.csv"%string := []]>
                           (<["merkle_states/state_other_20260101_000000.csv"%string := []]>
                              ∅))))
              _ eq_refl)
    as (latest & Hfind & _ & Hgreatest).
  - vm_compute. discriminate.
  - exists latest. split; [exact Hfind|]. apply Hgreatest.
    apply (bool_decide_unpack _). vm_compute. exact I.
Defined.

(** ** Comparing with a reloaded snapshot *)



